(** * Silver Monte Carlo simulation: simulator and analyzer

    A shallow embedding of [monte_carlo_simulator.py] and [analyzer.py].

    Numbers.  A Python/NumPy float is modelled as an exact real number or
    the not-a-number value [NaN]: rounding, overflow, underflow and the two
    infinities are outside the model.  Sums, means, quotients, exponentials
    and the thresholds [start_price * 1.1] are therefore exact here, where
    the code rounds each of them.  Arithmetic propagates [NaN], every comparison
    with [NaN] is false, and pandas reductions skip [NaN] entries, as the
    libraries do.  The quotient [x / 0] is mapped to [NaN]; this is the
    IEEE value for [0 / 0], and no theorem below depends on the value of
    [x / 0] for a nonzero [x].

    Randomness.  The global NumPy random state is a stream of standard
    normal draws together with a cursor; [np.random.normal] reads the
    stream at the cursor and advances it.

    Errors.  A call either raises one of the Python exceptions [exn] or
    returns a value. *)

From Stdlib Require Import Reals Lra Lia List ZArith QArith Qreals Qround.
From Stdlib Require Import Permutation Sorted Bool.
Import ListNotations.

(** ** Floating-point values *)

Inductive pyfloat : Type :=
| Fin (x : R)
| NaN.

Definition lift1 (f : R -> R) (a : pyfloat) : pyfloat :=
  match a with
  | Fin x => Fin (f x)
  | NaN => NaN
  end.

Definition lift2 (f : R -> R -> R) (a b : pyfloat) : pyfloat :=
  match a, b with
  | Fin x, Fin y => Fin (f x y)
  | _, _ => NaN
  end.

Definition fadd : pyfloat -> pyfloat -> pyfloat := lift2 Rplus.
Definition fsub : pyfloat -> pyfloat -> pyfloat := lift2 Rminus.
Definition fmul : pyfloat -> pyfloat -> pyfloat := lift2 Rmult.
Definition fexp : pyfloat -> pyfloat := lift1 exp.

Definition Req_bool (x y : R) : bool := if Req_dec_T x y then true else false.
Definition Rle_bool (x y : R) : bool := if Rle_dec x y then true else false.
Definition Rlt_bool (x y : R) : bool := if Rlt_dec x y then true else false.

Definition fdiv (a b : pyfloat) : pyfloat :=
  match a, b with
  | Fin x, Fin y => if Req_bool y 0 then NaN else Fin (x / y)
  | _, _ => NaN
  end.

(** [x ** n] for a natural exponent, by repeated multiplication;
    [x ** 0] is [1] for every [x]. *)
Fixpoint fpow (a : pyfloat) (n : nat) : pyfloat :=
  match n with
  | O => Fin 1
  | S k => fmul a (fpow a k)
  end.

(** The comparisons [a <= b], [a < b], [a > b] and [a >= b]. *)
Definition fleb (a b : pyfloat) : bool :=
  match a, b with
  | Fin x, Fin y => Rle_bool x y
  | _, _ => false
  end.

Definition fltb (a b : pyfloat) : bool :=
  match a, b with
  | Fin x, Fin y => Rlt_bool x y
  | _, _ => false
  end.

Definition fgtb (a b : pyfloat) : bool := fltb b a.
Definition fgeb (a b : pyfloat) : bool := fleb b a.

Definition fle (a b : pyfloat) : Prop := fleb a b = true.
Definition flt (a b : pyfloat) : Prop := fltb a b = true.

Definition isnan (a : pyfloat) : bool :=
  match a with
  | Fin _ => false
  | NaN => true
  end.

(** ** Exceptions and results *)

Inductive exn : Type :=
| ValueError
| IndexError.

Definition result (A : Type) : Type := (exn + A)%type.

(** ** Arrays and frames

    A two-dimensional array, and the [DataFrame] built from it, is the list
    of its rows; row [t] holds the prices of every path at step [t]. *)

Definition ndarray : Type := list (list pyfloat).
Definition DataFrame : Type := list (list pyfloat).
Definition Series : Type := list pyfloat.

(** Elementwise product of two rows. *)
Fixpoint row_mul (a b : list pyfloat) : list pyfloat :=
  match a, b with
  | x :: a', y :: b' => fmul x y :: row_mul a' b'
  | _, _ => []
  end.

(** [m[t] = row] for an index inside the array. *)
Definition set_row (t : nat) (row : list pyfloat) (m : ndarray) : ndarray :=
  firstn t m ++ row :: skipn (S t) m.

Definition get_row (m : ndarray) (t : nat) : list pyfloat := nth t m [].

Definition zeros_like (m : ndarray) : ndarray :=
  map (map (fun _ => Fin 0%R)) m.

(** ** The random source *)

Record RandomState : Type := mkRandomState {
  stream : nat -> R;
  cursor : nat
}.

(** [np.random.normal(0, 1, (rows, cols))]: a negative dimension raises
    [ValueError]; otherwise [rows * cols] draws are taken in row-major
    order. *)
Definition random_normal (rows cols : Z) (st : RandomState)
  : result (list (list R)) * RandomState :=
  if ((rows <? 0)%Z || (cols <? 0)%Z)%bool then (inl ValueError, st)
  else
    let r := Z.to_nat rows in
    let c := Z.to_nat cols in
    (inr (map (fun i => map (fun j => stream st (cursor st + i * c + j)) (seq 0 c))
              (seq 0 r)),
     mkRandomState (stream st) (cursor st + r * c)).

(** ** monte_carlo_simulator.py *)

(** [np.exp(drift + volatility * z)], elementwise. *)
Definition daily_returns_of (drift volatility : pyfloat) (z : list (list R))
  : ndarray :=
  map (map (fun x => fexp (fadd drift (fmul volatility (Fin x))))) z.

(** The body of the loop [for t in range(1, forecast_period)]. *)
Definition price_step (daily_returns : ndarray) (price_paths : ndarray) (t : nat)
  : ndarray :=
  set_row t (row_mul (get_row price_paths (t - 1)) (get_row daily_returns t))
          price_paths.

Definition price_loop (daily_returns price_paths : ndarray) (forecast_period : nat)
  : ndarray :=
  fold_left (price_step daily_returns) (seq 1 (forecast_period - 1)) price_paths.

(** [price_paths[0] = start_price]: the scalar is broadcast over row 0;
    an array without rows raises [IndexError]. *)
Definition set_first_row (start_price : pyfloat) (m : ndarray) : result ndarray :=
  match m with
  | [] => inl IndexError
  | row0 :: rest => inr (map (fun _ => start_price) row0 :: rest)
  end.

Definition run_monte_carlo_simulation
    (start_price drift volatility : pyfloat)
    (forecast_period num_simulations : Z) (st : RandomState)
  : result DataFrame * RandomState :=
  match random_normal forecast_period num_simulations st with
  | (inl e, st') => (inl e, st')
  | (inr z, st') =>
      let daily_returns := daily_returns_of drift volatility z in
      let price_paths := zeros_like daily_returns in
      match set_first_row start_price price_paths with
      | inl e => (inl e, st')
      | inr price_paths =>
          (inr (price_loop daily_returns price_paths (Z.to_nat forecast_period)),
           st')
      end
  end.

(** A random state whose stream repeats one value, for examples. *)
Definition constant_state (x : R) : RandomState := mkRandomState (fun _ => x) 0.

Definition default_forecast_period : Z := 252.
Definition default_num_simulations : Z := 10000.

(** ** pandas and NumPy reductions *)

(** The entries of a series that are not missing. *)
Fixpoint dropna (xs : Series) : list R :=
  match xs with
  | [] => []
  | Fin x :: rest => x :: dropna rest
  | NaN :: rest => dropna rest
  end.

Definition Rsum (l : list R) : R := fold_right Rplus 0%R l.

(** [Series.mean()]: missing entries are skipped; the mean of nothing is
    [NaN]. *)
Definition series_mean (xs : Series) : pyfloat :=
  match dropna xs with
  | [] => NaN
  | v :: vs => Fin (Rsum (v :: vs) / INR (length (v :: vs)))
  end.

(** The mean of a boolean series counts [True] as 1 and [False] as 0. *)
Definition count_true (bs : list bool) : nat := length (filter (fun b => b) bs).

Definition mask_mean (bs : list bool) : pyfloat :=
  match bs with
  | [] => NaN
  | _ :: _ => Fin (INR (count_true bs) / INR (length bs))
  end.

(** Sorting in increasing order. *)
Fixpoint np_insert (x : R) (l : list R) : list R :=
  match l with
  | [] => [x]
  | y :: l' => if Rle_bool x y then x :: y :: l' else y :: np_insert x l'
  end.

Fixpoint np_sort (l : list R) : list R :=
  match l with
  | [] => []
  | x :: l' => np_insert x (np_sort l')
  end.

(** NumPy's interpolation between two neighbours: the second form is used
    from the midpoint on. *)
Definition np_lerp (a b t : R) : R :=
  if Rle_bool (1 / 2) t then (b - (b - a) * (1 - t))%R else (a + (b - a) * t)%R.

(** [np.percentile(vs, 100 * q, method='linear')] on a non-empty array: the
    virtual index [(n - 1) * q] is split into its floor and its fractional
    part, the upper neighbour is clipped to the last index. *)
Definition virtual_index (n : nat) (q : Q) : Q :=
  (inject_Z (Z.of_nat (n - 1)) * q)%Q.

Definition np_quantile (q : Q) (vs : list R) : R :=
  let s := np_sort vs in
  let n := length s in
  let h := virtual_index n q in
  let lo := Z.to_nat (Qfloor h) in
  let hi := Nat.min (lo + 1) (n - 1) in
  let gamma := Q2R (h - inject_Z (Qfloor h)) in
  np_lerp (nth lo s 0%R) (nth hi s 0%R) gamma.

(** [Series.quantile(q)] with the default linear interpolation: missing
    entries are dropped first; with nothing left the result is [NaN]. *)
Definition series_quantile (xs : Series) (q : Q) : pyfloat :=
  match dropna xs with
  | [] => NaN
  | v :: vs => Fin (np_quantile q (v :: vs))
  end.

(** The median of a non-empty array: the middle element, or the mean of the
    two middle elements. *)
Definition np_median (vs : list R) : R :=
  let s := np_sort vs in
  let n := length s in
  if Nat.even n
  then ((nth (n / 2 - 1) s 0 + nth (n / 2) s 0) / 2)%R
  else nth (n / 2) s 0%R.

Definition series_median (xs : Series) : pyfloat :=
  match dropna xs with
  | [] => NaN
  | v :: vs => Fin (np_median (v :: vs))
  end.

(** [Series.std()]: the sample standard deviation (one degree of freedom
    removed) of the entries that are not missing. *)
Definition series_std (xs : Series) : pyfloat :=
  let vs := dropna xs in
  let n := length vs in
  if (n <=? 1)%nat then NaN
  else
    let m := (Rsum vs / INR n)%R in
    Fin (sqrt (Rsum (map (fun x => (x - m) * (x - m))%R vs) / INR (n - 1))).

(** [simulations.iloc[-1]]: the last row; a frame without rows raises
    [IndexError]. *)
Definition iloc_last (simulations : DataFrame) : result Series :=
  match rev simulations with
  | [] => inl IndexError
  | row :: _ => inr row
  end.

(** ** analyzer.py

    The two entries computed by [scipy.stats] (skewness and kurtosis) are
    not part of the model. *)

Record PricePredictions : Type := mkPricePredictions {
  mean_predicted_price : pyfloat;
  median_predicted_price : pyfloat;
  percentile_5th : pyfloat;
  percentile_25th : pyfloat;
  percentile_75th : pyfloat;
  percentile_95th : pyfloat
}.

Record RiskMetrics : Type := mkRiskMetrics {
  VaR_95 : pyfloat;
  VaR_99 : pyfloat;
  CVaR_95 : pyfloat;
  CVaR_99 : pyfloat;
  prob_loss : pyfloat;
  prob_increase_10 : pyfloat;
  prob_increase_20 : pyfloat;
  prob_increase_30 : pyfloat
}.

Record StatisticalSummary : Type := mkStatisticalSummary {
  expected_return : pyfloat;
  std_dev_forecast : pyfloat
}.

Record Analysis : Type := mkAnalysis {
  price_predictions : PricePredictions;
  risk_metrics : RiskMetrics;
  statistical_summary : StatisticalSummary;
  final_prices : Series
}.

(** [returns = final_prices / start_price - 1] *)
Definition returns_of (final_prices : Series) (start_price : pyfloat) : Series :=
  map (fun p => fsub (fdiv p start_price) (Fin 1%R)) final_prices.

(** [returns[returns <= var]] *)
Definition tail_of (returns : Series) (var : pyfloat) : Series :=
  filter (fun r => fleb r var) returns.

(** The part of [analyze_simulation_results] after the last row is taken. *)
Definition analyze_final_prices (final_prices : Series) (start_price : pyfloat)
  : Analysis :=
  let price_predictions :=
    mkPricePredictions
      (series_mean final_prices)
      (series_median final_prices)
      (series_quantile final_prices 0.05)
      (series_quantile final_prices 0.25)
      (series_quantile final_prices 0.75)
      (series_quantile final_prices 0.95) in
  let returns := returns_of final_prices start_price in
  let var_95 := series_quantile returns 0.05 in
  let var_99 := series_quantile returns 0.01 in
  let cvar_95 := series_mean (tail_of returns var_95) in
  let cvar_99 := series_mean (tail_of returns var_99) in
  let risk_metrics :=
    mkRiskMetrics var_95 var_99 cvar_95 cvar_99
      (mask_mean (map (fun p => fltb p start_price) final_prices))
      (mask_mean (map (fun p => fgtb p (fmul start_price (Fin 1.1%R))) final_prices))
      (mask_mean (map (fun p => fgtb p (fmul start_price (Fin 1.2%R))) final_prices))
      (mask_mean (map (fun p => fgtb p (fmul start_price (Fin 1.3%R))) final_prices)) in
  let statistical_summary :=
    mkStatisticalSummary (series_mean returns) (series_std final_prices) in
  mkAnalysis price_predictions risk_metrics statistical_summary final_prices.

Definition analyze_simulation_results (simulations : DataFrame) (start_price : pyfloat)
  : result Analysis :=
  match iloc_last simulations with
  | inl e => inl e
  | inr final_prices => inr (analyze_final_prices final_prices start_price)
  end.

(** ** Notions of the specification *)

(** Row [t] of the price matrix in closed form: row 0 is [row0], and row
    [t + 1] is row [t] times the daily returns of step [t + 1]. *)
Fixpoint gbm_row (daily_returns : ndarray) (row0 : list pyfloat) (t : nat)
  : list pyfloat :=
  match t with
  | O => row0
  | S k => row_mul (gbm_row daily_returns row0 k) (get_row daily_returns (S k))
  end.

(** The arithmetic mean of a sample. *)
Definition arithmetic_mean (rs : list R) : R := (Rsum rs / INR (length rs))%R.

(** Order statistics by rank: [v] is the order statistic of rank [k]
    (counted from 0) of the sample [xs] when it occurs in [xs], at most [k]
    observations are smaller, and more than [k] are smaller or equal. *)
Definition count_lt (v : R) (xs : list R) : nat :=
  length (filter (fun x => Rlt_bool x v) xs).

Definition count_le (v : R) (xs : list R) : nat :=
  length (filter (fun x => Rle_bool x v) xs).

Definition order_statistic (xs : list R) (k : nat) (v : R) : Prop :=
  In v xs /\ (count_lt v xs <= k)%nat /\ (k < count_le v xs)%nat.

(** The [q]-quantile by linear interpolation between order statistics:
    with [n] observations the rank [(n - 1) * q] lies between the integer
    ranks [j] and [j + 1], and the quantile divides the segment between the
    two order statistics in the same proportion. *)
Definition linear_quantile (q : R) (xs : list R) (v : R) : Prop :=
  exists (j : nat) (a b : R),
    (INR j <= INR (length xs - 1) * q < INR j + 1)%R /\
    order_statistic xs j a /\
    order_statistic xs (Nat.min (j + 1) (length xs - 1)) b /\
    v = ((1 - (INR (length xs - 1) * q - INR j)) * a
         + (INR (length xs - 1) * q - INR j) * b)%R.

(** The quantile of a series with missing entries is the quantile of its
    observations; without observations it is [NaN]. *)
Definition series_linear_quantile (q : R) (xs : Series) (v : pyfloat) : Prop :=
  match v with
  | Fin r => linear_quantile q (dropna xs) r
  | NaN => dropna xs = []
  end.

(** The fraction of paths whose final price is at least the start price. *)
Definition fraction_at_least (final_prices : Series) (start_price : pyfloat)
  : pyfloat :=
  mask_mean (map (fun p => fgeb p start_price) final_prices).

(** A frame whose last row is [final_prices]. *)
Definition frame_ending (rows : DataFrame) (final_prices : Series) : DataFrame :=
  rows ++ [final_prices].

(** ** Cells, draws and row-wise reductions *)

(** [simulations.iloc[t, p]]: the price of path [p] at step [t]. *)
Definition cell (m : DataFrame) (t p : nat) : pyfloat := nth p (get_row m t) NaN.

(** The draw that [np.random.normal] places at row [t], column [p] of an
    array with [cols] columns. *)
Definition draw (st : RandomState) (cols t p : nat) : R :=
  stream st (cursor st + t * cols + p).

(** The step factor [exp(drift + volatility * z)] of row [t], column [p]. *)
Definition step_factor (drift volatility : pyfloat) (st : RandomState)
    (cols t p : nat) : pyfloat :=
  fexp (fadd drift (fmul volatility (Fin (draw st cols t p)))).

(** The sum of the draws of steps [1 .. t] of path [p]. *)
Definition draw_sum (st : RandomState) (cols t p : nat) : R :=
  Rsum (map (fun u => draw st cols u p) (seq 1 t)).

(** A price that is a number above zero. *)
Definition positive_price (x : pyfloat) : Prop :=
  exists r, x = Fin r /\ (0 < r)%R.

(** [simulations.quantile(q, axis=1)]: one value per step, taken over the
    paths. *)
Definition frame_quantile (simulations : DataFrame) (q : Q) : Series :=
  map (fun row => series_quantile row q) simulations.

(** ** visualizer.py: the series handed to the plots

    The drawing itself (matplotlib, seaborn, the files written) is outside
    the model; the definitions below are the data the plotting calls
    receive. *)

(** [percentiles = [5, 20, 50, 80, 95]] of [plot_fan_chart]. *)
Definition fan_chart_percentiles : list Q := [5; 20; 50; 80; 95]%Q.

(** The loop of [plot_fan_chart]: band [i] is filled between
    [simulations.quantile(percentiles[i]/100, axis=1)] and
    [simulations.quantile(percentiles[i+1]/100, axis=1)]. *)
Definition fan_chart_bands (simulations : DataFrame) : list (Series * Series) :=
  map (fun i =>
         (frame_quantile simulations (nth i fan_chart_percentiles 0 / 100)%Q,
          frame_quantile simulations (nth (i + 1) fan_chart_percentiles 0 / 100)%Q))
      (seq 0 (length fan_chart_percentiles - 1)).

(** [returns = final_prices / final_prices.iloc[0] - 1] of
    [plot_pdf_and_cdf]; [iloc[0]] of an empty series raises [IndexError]. *)
Definition pdf_cdf_returns (final_prices : Series) : result Series :=
  match final_prices with
  | [] => inl IndexError
  | first :: _ => inr (returns_of final_prices first)
  end.

(** ** Arithmetic of floating-point values *)

Lemma Rle_bool_true (x y : R) : Rle_bool x y = true <-> (x <= y)%R.
Proof.
  unfold Rle_bool. destruct (Rle_dec x y); split; intros; congruence || tauto.
Qed.

Lemma Rlt_bool_true (x y : R) : Rlt_bool x y = true <-> (x < y)%R.
Proof.
  unfold Rlt_bool. destruct (Rlt_dec x y); split; intros; congruence || tauto.
Qed.

Lemma Rle_bool_false (x y : R) : Rle_bool x y = false <-> (y < x)%R.
Proof.
  unfold Rle_bool. destruct (Rle_dec x y); split; intros; try congruence; lra.
Qed.

Lemma Rlt_bool_false (x y : R) : Rlt_bool x y = false <-> (y <= x)%R.
Proof.
  unfold Rlt_bool. destruct (Rlt_dec x y); split; intros; try congruence; lra.
Qed.

Lemma Req_bool_true (x y : R) : Req_bool x y = true <-> x = y.
Proof.
  unfold Req_bool. destruct (Req_dec_T x y); split; intros; congruence || tauto.
Qed.

Lemma Req_bool_false (x y : R) : Req_bool x y = false <-> x <> y.
Proof.
  unfold Req_bool. destruct (Req_dec_T x y); split; intros; congruence || tauto.
Qed.

Lemma fle_Fin (x y : R) : fle (Fin x) (Fin y) <-> (x <= y)%R.
Proof. unfold fle; simpl. apply Rle_bool_true. Qed.

Lemma fmul_assoc (a b c : pyfloat) : fmul (fmul a b) c = fmul a (fmul b c).
Proof.
  destruct a, b, c; simpl; trivial. f_equal. ring.
Qed.

Lemma fmul_one_r (a : pyfloat) : fmul a (Fin 1%R) = a.
Proof. destruct a; simpl; trivial. f_equal. ring. Qed.

Lemma fadd_zero_volatility (drift : pyfloat) (z : R) :
  fadd drift (fmul (Fin 0%R) (Fin z)) = drift.
Proof. destruct drift; simpl; trivial. f_equal. ring. Qed.

Lemma fdiv_Fin (x y : R) : y <> 0%R -> fdiv (Fin x) (Fin y) = Fin (x / y).
Proof.
  intros Hy. simpl. apply Req_bool_false in Hy. now rewrite Hy.
Qed.

(** ** Rows and arrays *)

Lemma set_row_length (t : nat) (row : list pyfloat) (m : ndarray) :
  (t < length m)%nat -> length (set_row t row m) = length m.
Proof.
  intros Ht. unfold set_row.
  rewrite length_app, length_firstn. cbn [length]. rewrite length_skipn. lia.
Qed.

Lemma set_row_same (t : nat) (row : list pyfloat) (m : ndarray) :
  (t < length m)%nat -> get_row (set_row t row m) t = row.
Proof.
  intros Ht. unfold get_row, set_row.
  rewrite app_nth2; rewrite length_firstn; [|lia].
  replace (t - Nat.min t (length m))%nat with 0%nat by lia. reflexivity.
Qed.

Lemma set_row_other (t u : nat) (row : list pyfloat) (m : ndarray) :
  (t < length m)%nat -> u <> t -> get_row (set_row t row m) u = get_row m u.
Proof.
  intros Ht Hu. unfold get_row, set_row.
  destruct (Nat.lt_ge_cases u t) as [Hlt | Hge].
  - rewrite app_nth1 by (rewrite length_firstn; lia).
    rewrite nth_firstn. apply Nat.ltb_lt in Hlt. now rewrite Hlt.
  - rewrite app_nth2; rewrite length_firstn; [|lia].
    replace (u - Nat.min t (length m))%nat with (S (u - t - 1)) by lia.
    cbn [nth]. rewrite nth_skipn. f_equal. lia.
Qed.

Lemma row_mul_length (a b : list pyfloat) :
  length (row_mul a b) = Nat.min (length a) (length b).
Proof.
  revert b. induction a as [|x a IH]; intros [|y b]; simpl; auto.
Qed.

Lemma row_mul_repeat (x y : pyfloat) (n : nat) :
  row_mul (repeat x n) (repeat y n) = repeat (fmul x y) n.
Proof.
  induction n as [|n IH]; simpl; [reflexivity | now rewrite IH].
Qed.

Lemma map_const_repeat {A B : Type} (b : B) (l : list A) :
  map (fun _ => b) l = repeat b (length l).
Proof.
  induction l as [|a l IH]; simpl; [reflexivity | now rewrite IH].
Qed.

(** ** The simulation loop *)

(** After [k] iterations rows [0 .. k] hold the closed form and the rows
    behind them are untouched. *)
Lemma price_loop_invariant (daily_returns price_paths : ndarray) (k : nat) :
  (k < length price_paths)%nat ->
  let pp := fold_left (price_step daily_returns) (seq 1 k) price_paths in
  length pp = length price_paths /\
  (forall t, (t <= k)%nat ->
     get_row pp t = gbm_row daily_returns (get_row price_paths 0) t) /\
  (forall t, (k < t)%nat -> get_row pp t = get_row price_paths t).
Proof.
  induction k as [|k IH]; intros Hk; cbv zeta.
  - simpl. repeat split; trivial.
    intros t Ht. replace t with 0%nat by lia. reflexivity.
  - rewrite seq_S, fold_left_app. simpl fold_left.
    destruct IH as (Hlen & Hlow & Hhigh); [lia|].
    set (pp := fold_left (price_step daily_returns) (seq 1 k) price_paths) in *.
    unfold price_step. replace (1 + k)%nat with (S k) by lia.
    repeat split.
    + rewrite set_row_length; lia.
    + intros t Ht. destruct (Nat.eq_dec t (S k)) as [-> | Hne].
      * rewrite set_row_same by lia. simpl gbm_row.
        replace (S k - 1)%nat with k by lia. rewrite Hlow by lia. reflexivity.
      * rewrite set_row_other by lia. apply Hlow. lia.
    + intros t Ht. rewrite set_row_other by lia. apply Hhigh. lia.
Qed.

Lemma price_loop_rows (daily_returns price_paths : ndarray) :
  price_paths <> [] ->
  let pp := price_loop daily_returns price_paths (length price_paths) in
  length pp = length price_paths /\
  forall t, (t < length price_paths)%nat ->
    get_row pp t = gbm_row daily_returns (get_row price_paths 0) t.
Proof.
  intros Hne. unfold price_loop.
  assert (Hlen : (length price_paths - 1 < length price_paths)%nat).
  { destruct price_paths; [congruence | simpl; lia]. }
  destruct (price_loop_invariant daily_returns price_paths _ Hlen)
    as (H1 & H2 & _).
  split; [exact H1|]. intros t Ht. apply H2. lia.
Qed.

(** ** The normal draws *)

Lemma random_normal_ok (rows cols : Z) (st : RandomState) :
  (0 <= rows)%Z -> (0 <= cols)%Z ->
  exists z,
    random_normal rows cols st
    = (inr z, mkRandomState (stream st) (cursor st + Z.to_nat rows * Z.to_nat cols))
    /\ length z = Z.to_nat rows
    /\ Forall (fun row => length row = Z.to_nat cols) z.
Proof.
  intros Hr Hc. unfold random_normal.
  assert (Hb : ((rows <? 0)%Z || (cols <? 0)%Z)%bool = false).
  { apply orb_false_iff; split; apply Z.ltb_ge; assumption. }
  rewrite Hb. eexists; split; [reflexivity|]. split.
  - now rewrite length_map, length_seq.
  - apply Forall_forall. intros row Hin. apply in_map_iff in Hin.
    destruct Hin as (i & <- & _). now rewrite length_map, length_seq.
Qed.

Lemma random_normal_error (rows cols : Z) (st : RandomState) :
  ((rows <? 0)%Z || (cols <? 0)%Z)%bool = true ->
  random_normal rows cols st = (inl ValueError, st).
Proof. intros Hb. unfold random_normal. now rewrite Hb. Qed.

Lemma daily_returns_shape (drift volatility : pyfloat) (z : list (list R)) (c : nat) :
  Forall (fun row => length row = c) z ->
  length (daily_returns_of drift volatility z) = length z /\
  Forall (fun row => length row = c) (daily_returns_of drift volatility z).
Proof.
  intros Hz. unfold daily_returns_of. split; [apply length_map|].
  apply Forall_forall. intros row Hin. apply in_map_iff in Hin.
  destruct Hin as (r & <- & Hr). rewrite length_map.
  rewrite Forall_forall in Hz. now apply Hz.
Qed.

Lemma zeros_like_shape (m : ndarray) (c : nat) :
  Forall (fun row => length row = c) m ->
  length (zeros_like m) = length m /\
  Forall (fun row => length row = c) (zeros_like m).
Proof.
  intros Hm. unfold zeros_like. split; [apply length_map|].
  apply Forall_forall. intros row Hin. apply in_map_iff in Hin.
  destruct Hin as (r & <- & Hr). rewrite length_map.
  rewrite Forall_forall in Hm. now apply Hm.
Qed.

Lemma gbm_row_length (daily_returns : ndarray) (row0 : list pyfloat) (c t : nat) :
  length row0 = c ->
  (forall u, (u <= t)%nat -> length (get_row daily_returns u) = c) ->
  length (gbm_row daily_returns row0 t) = c.
Proof.
  intros H0 Hd. induction t as [|t IH]; simpl; [exact H0|].
  rewrite row_mul_length, IH, Hd; auto. lia.
Qed.

Lemma fmul_comm (a b : pyfloat) : fmul a b = fmul b a.
Proof. destruct a, b; simpl; trivial. f_equal. ring. Qed.

Lemma gbm_row_constant (daily_returns : ndarray) (s f : pyfloat) (c t : nat) :
  (forall u, (1 <= u <= t)%nat -> get_row daily_returns u = repeat f c) ->
  gbm_row daily_returns (repeat s c) t = repeat (fmul s (fpow f t)) c.
Proof.
  intros Hd. induction t as [|t IH]; simpl.
  - now rewrite fmul_one_r.
  - rewrite IH by (intros u Hu; apply Hd; lia).
    rewrite Hd by lia. rewrite row_mul_repeat. f_equal.
    rewrite fmul_assoc. f_equal. apply fmul_comm.
Qed.

Lemma daily_returns_zero_volatility (drift : pyfloat) (z : list (list R)) (c u : nat) :
  Forall (fun row => length row = c) z ->
  (u < length z)%nat ->
  get_row (daily_returns_of drift (Fin 0%R) z) u = repeat (fexp drift) c.
Proof.
  intros Hz Hu. unfold get_row, daily_returns_of.
  rewrite nth_indep with (d' := map (fun x => fexp (fadd drift (fmul (Fin 0%R) (Fin x)))) [])
    by (now rewrite length_map).
  rewrite map_nth.
  assert (Hlen : length (nth u z []) = c).
  { rewrite Forall_forall in Hz. apply Hz. now apply nth_In. }
  rewrite <- Hlen. rewrite <- map_const_repeat. apply map_ext.
  intros x. now rewrite fadd_zero_volatility.
Qed.

(** A run with at least one step and a non-negative number of paths
    returns the rows of the closed form. *)
Lemma run_monte_carlo_simulation_rows
    (start_price drift volatility : pyfloat)
    (forecast_period num_simulations : Z) (st : RandomState) :
  (1 <= forecast_period)%Z -> (0 <= num_simulations)%Z ->
  exists z m st',
    random_normal forecast_period num_simulations st = (inr z, st') /\
    length z = Z.to_nat forecast_period /\
    Forall (fun row => length row = Z.to_nat num_simulations) z /\
    run_monte_carlo_simulation start_price drift volatility
      forecast_period num_simulations st = (inr m, st') /\
    length m = Z.to_nat forecast_period /\
    forall t, (t < Z.to_nat forecast_period)%nat ->
      get_row m t
      = gbm_row (daily_returns_of drift volatility z)
                (repeat start_price (Z.to_nat num_simulations)) t.
Proof.
  intros HT HN.
  destruct (random_normal_ok forecast_period num_simulations st)
    as (z & Hz & Hlen & Hcols); [lia | lia |].
  unfold run_monte_carlo_simulation. rewrite Hz.
  destruct (daily_returns_shape drift volatility z _ Hcols) as (Hdl & Hdc).
  destruct (zeros_like_shape _ _ Hdc) as (Hzl & Hzc).
  set (dr := daily_returns_of drift volatility z) in *.
  destruct (zeros_like dr) as [|row0 rest] eqn:Hzeros.
  { simpl in Hzl. lia. }
  simpl set_first_row. cbv iota beta.
  set (pp := map (fun _ => start_price) row0 :: rest).
  assert (Hpl : length pp = Z.to_nat forecast_period).
  { unfold pp. simpl. simpl in Hzl. lia. }
  assert (Hp0 : get_row pp 0 = repeat start_price (Z.to_nat num_simulations)).
  { unfold pp, get_row. simpl. rewrite map_const_repeat. f_equal.
    inversion Hzc; subst. assumption. }
  assert (Hne : pp <> []) by (unfold pp; discriminate).
  destruct (price_loop_rows dr pp Hne) as (Hl & Hrows).
  rewrite Hpl in Hl, Hrows.
  eexists z, (price_loop dr pp (Z.to_nat forecast_period)), _.
  split; [reflexivity|]. repeat split; trivial.
  intros t Ht. rewrite Hrows by exact Ht. now rewrite Hp0.
Qed.

(** ** The simulator: shape, failures, zero volatility, determinism *)

(** C1.  For valid parameters (start price above zero, at least one step,
    at least one path, volatility not negative) the simulation returns a
    frame with [forecast_period] rows of [num_simulations] columns each,
    and row 0 holds the start price in every column. *)
Theorem simulation_shape
    (start_price drift volatility : pyfloat)
    (forecast_period num_simulations : Z) (st : RandomState) :
  flt (Fin 0%R) start_price ->
  (1 <= forecast_period)%Z ->
  (1 <= num_simulations)%Z ->
  fle (Fin 0%R) volatility ->
  exists m,
    fst (run_monte_carlo_simulation start_price drift volatility
           forecast_period num_simulations st) = inr m /\
    length m = Z.to_nat forecast_period /\
    Forall (fun row => length row = Z.to_nat num_simulations) m /\
    get_row m 0 = repeat start_price (Z.to_nat num_simulations).
Proof.
  intros _ HT HN _.
  destruct (run_monte_carlo_simulation_rows start_price drift volatility
              forecast_period num_simulations st)
    as (z & m & st' & Hz & Hzl & Hzc & Hrun & Hlen & Hrows); [lia | lia |].
  exists m. rewrite Hrun. repeat split; trivial.
  - destruct (daily_returns_shape drift volatility z _ Hzc) as (Hdl & Hdc).
    apply Forall_nth. intros i d Hi.
    rewrite nth_indep with (d' := []) by exact Hi.
    fold (get_row m i). rewrite Hrows by lia.
    apply gbm_row_length; [apply repeat_length|].
    intros u Hu. unfold get_row.
    rewrite Forall_nth in Hdc. apply Hdc. lia.
  - rewrite (Hrows 0%nat) by lia. reflexivity.
Qed.

Lemma simulation_shape_witness :
  flt (Fin 0%R) (Fin 100%R) /\ (1 <= 3)%Z /\ (1 <= 2)%Z /\
  fle (Fin 0%R) (Fin 0%R) /\
  exists m,
    fst (run_monte_carlo_simulation (Fin 100%R) (Fin 0%R) (Fin 0%R) 3 2
           (constant_state 0%R)) = inr m /\
    length m = Z.to_nat 3 /\
    Forall (fun row => length row = Z.to_nat 2) m /\
    get_row m 0 = repeat (Fin 100%R) (Z.to_nat 2).
Proof.
  assert (H1 : flt (Fin 0%R) (Fin 100%R)).
  { unfold flt; simpl. apply Rlt_bool_true. lra. }
  assert (H2 : fle (Fin 0%R) (Fin 0%R)).
  { apply fle_Fin. lra. }
  split; [exact H1|]. split; [lia|]. split; [lia|]. split; [exact H2|].
  apply (simulation_shape (Fin 100%R) (Fin 0%R) (Fin 0%R) 3 2 (constant_state 0%R));
    [exact H1 | lia | lia | exact H2].
Defined.

(** C2, as the code has it.  The simulator validates nothing itself: a
    negative dimension makes NumPy raise [ValueError], a horizon of zero
    steps makes the assignment to row 0 raise [IndexError], and every other
    input returns a frame, whatever the start price and the volatility. *)
Theorem simulation_outcome
    (start_price drift volatility : pyfloat)
    (forecast_period num_simulations : Z) (st : RandomState) :
  let r := fst (run_monte_carlo_simulation start_price drift volatility
                  forecast_period num_simulations st) in
  if ((forecast_period <? 0)%Z || (num_simulations <? 0)%Z)%bool
  then r = inl ValueError
  else if (forecast_period =? 0)%Z
       then r = inl IndexError
       else exists m, r = inr m.
Proof.
  cbv zeta.
  destruct ((forecast_period <? 0)%Z || (num_simulations <? 0)%Z)%bool eqn:Hneg.
  - unfold run_monte_carlo_simulation.
    now rewrite random_normal_error.
  - apply orb_false_iff in Hneg. destruct Hneg as (HT%Z.ltb_ge & HN%Z.ltb_ge).
    destruct (forecast_period =? 0)%Z eqn:Hzero.
    + apply Z.eqb_eq in Hzero. subst forecast_period.
      unfold run_monte_carlo_simulation, random_normal.
      apply Z.ltb_ge in HN. rewrite HN. reflexivity.
    + apply Z.eqb_neq in Hzero.
      destruct (run_monte_carlo_simulation_rows start_price drift volatility
                  forecast_period num_simulations st)
        as (z & m & st' & _ & _ & _ & Hrun & _); [lia | lia |].
      exists m. now rewrite Hrun.
Qed.

(** C2 fails as stated: a negative start price with a negative volatility
    is simulated without any error, zero paths give a frame without
    columns, and a horizon of zero steps raises [IndexError]. *)
Lemma simulation_accepts_invalid_parameters :
  fst (run_monte_carlo_simulation (Fin (-1)%R) (Fin 0%R) (Fin (-1)%R) 1 1
         (constant_state 0%R)) = inr [[Fin (-1)%R]] /\
  fst (run_monte_carlo_simulation (Fin 100%R) (Fin 0%R) (Fin 0%R) 1 0
         (constant_state 0%R)) = inr [[]] /\
  fst (run_monte_carlo_simulation (Fin 100%R) (Fin 0%R) (Fin 0%R) 0 1
         (constant_state 0%R)) = inl IndexError.
Proof. repeat split. Qed.

(** C6.  With volatility zero every path is the same: at step [t] below
    the horizon each column holds [start_price * exp(drift) ** t].  The
    run returns a frame whenever the number of paths is not negative. *)
Theorem zero_volatility_paths
    (start_price drift : pyfloat)
    (forecast_period num_simulations : Z) (st : RandomState) (t : nat) :
  flt (Fin 0%R) start_price ->
  (t < Z.to_nat forecast_period)%nat ->
  let r := fst (run_monte_carlo_simulation start_price drift (Fin 0%R)
                  forecast_period num_simulations st) in
  ((0 <= num_simulations)%Z -> exists m, r = inr m) /\
  forall m, r = inr m ->
    get_row m t
    = repeat (fmul start_price (fpow (fexp drift) t)) (Z.to_nat num_simulations).
Proof.
  intros _ Ht. cbv zeta.
  destruct (Z.lt_ge_cases num_simulations 0) as [Hneg | HN].
  - split; [lia|]. intros m Hm. unfold run_monte_carlo_simulation in Hm.
    rewrite random_normal_error in Hm; [discriminate|].
    apply orb_true_iff. right. now apply Z.ltb_lt.
  - destruct (run_monte_carlo_simulation_rows start_price drift (Fin 0%R)
                forecast_period num_simulations st)
      as (z & m & st' & Hz & Hzl & Hzc & Hrun & Hlen & Hrows); [lia | lia |].
    rewrite Hrun. simpl fst. split; [intros _; now exists m|].
    intros m' Hm'. injection Hm' as <-.
    rewrite Hrows by exact Ht.
    apply gbm_row_constant. intros u Hu.
    apply daily_returns_zero_volatility; [exact Hzc | lia].
Qed.

Lemma zero_volatility_paths_witness :
  flt (Fin 0%R) (Fin 100%R) /\ (1 < Z.to_nat 3)%nat /\
  let r := fst (run_monte_carlo_simulation (Fin 100%R) (Fin 0%R) (Fin 0%R)
                  3 2 (constant_state 0%R)) in
  ((0 <= 2)%Z -> exists m, r = inr m) /\
  forall m, r = inr m ->
    get_row m 1
    = repeat (fmul (Fin 100%R) (fpow (fexp (Fin 0%R)) 1)) (Z.to_nat 2).
Proof.
  assert (H1 : flt (Fin 0%R) (Fin 100%R)).
  { unfold flt; simpl. apply Rlt_bool_true. lra. }
  assert (H2 : (1 < Z.to_nat 3)%nat) by (simpl; lia).
  split; [exact H1|]. split; [exact H2|].
  exact (zero_volatility_paths (Fin 100%R) (Fin 0%R) 3 2 (constant_state 0%R) 1 H1 H2).
Defined.

(** C9.  The frame is a function of the parameters and of the draws the
    call consumes: two runs with the same parameters, started at the same
    cursor on streams that agree on the [forecast_period * num_simulations]
    draws behind it, return the same outcome and leave the same cursor. *)
Theorem simulation_deterministic
    (start_price drift volatility : pyfloat)
    (forecast_period num_simulations : Z) (st1 st2 : RandomState) :
  cursor st1 = cursor st2 ->
  (forall k,
     (cursor st1 <= k
      < cursor st1 + Z.to_nat forecast_period * Z.to_nat num_simulations)%nat ->
     stream st1 k = stream st2 k) ->
  fst (run_monte_carlo_simulation start_price drift volatility
         forecast_period num_simulations st1)
  = fst (run_monte_carlo_simulation start_price drift volatility
           forecast_period num_simulations st2)
  /\ cursor (snd (run_monte_carlo_simulation start_price drift volatility
                    forecast_period num_simulations st1))
     = cursor (snd (run_monte_carlo_simulation start_price drift volatility
                      forecast_period num_simulations st2)).
Proof.
  intros Hc Hs. unfold run_monte_carlo_simulation, random_normal.
  destruct ((forecast_period <? 0)%Z || (num_simulations <? 0)%Z)%bool.
  - simpl. auto.
  - set (r := Z.to_nat forecast_period) in *.
    set (c := Z.to_nat num_simulations) in *.
    assert (Hz : map (fun i => map (fun j => stream st1 (cursor st1 + i * c + j)) (seq 0 c))
                     (seq 0 r)
                 = map (fun i => map (fun j => stream st2 (cursor st2 + i * c + j)) (seq 0 c))
                       (seq 0 r)).
    { apply map_ext_in. intros i Hi. apply map_ext_in. intros j Hj.
      apply in_seq in Hi. apply in_seq in Hj. rewrite <- Hc. apply Hs. nia. }
    rewrite Hz, Hc.
    destruct (set_first_row start_price _); simpl; auto.
Qed.

Lemma simulation_deterministic_witness :
  fst (run_monte_carlo_simulation (Fin 100%R) (Fin 0%R) (Fin 1%R) 2 1
         (mkRandomState (fun k => INR k) 0))
  = fst (run_monte_carlo_simulation (Fin 100%R) (Fin 0%R) (Fin 1%R) 2 1
           (mkRandomState (fun k => if (k <? 2)%nat then INR k else 0%R) 0))
  /\ cursor (snd (run_monte_carlo_simulation (Fin 100%R) (Fin 0%R) (Fin 1%R) 2 1
                    (mkRandomState (fun k => INR k) 0)))
     = cursor (snd (run_monte_carlo_simulation (Fin 100%R) (Fin 0%R) (Fin 1%R) 2 1
                      (mkRandomState (fun k => if (k <? 2)%nat then INR k else 0%R) 0))).
Proof.
  apply simulation_deterministic; [reflexivity|].
  simpl. intros k Hk.
  destruct (k <? 2)%nat eqn:E; [reflexivity|].
  apply Nat.ltb_ge in E. lia.
Defined.

(** ** Sorting *)

Lemma np_insert_perm (x : R) (l : list R) : Permutation (np_insert x l) (x :: l).
Proof.
  induction l as [|y l IH]; simpl.
  - apply Permutation_refl.
  - destruct (Rle_bool x y).
    + apply Permutation_refl.
    + eapply perm_trans; [apply perm_skip, IH | apply perm_swap].
Qed.

Lemma np_sort_perm (l : list R) : Permutation (np_sort l) l.
Proof.
  induction l as [|x l IH]; simpl.
  - apply perm_nil.
  - eapply perm_trans; [apply np_insert_perm | apply perm_skip, IH].
Qed.

Lemma np_sort_length (l : list R) : length (np_sort l) = length l.
Proof. apply Permutation_length, np_sort_perm. Qed.

Lemma np_insert_sorted (x : R) (l : list R) :
  StronglySorted Rle l -> StronglySorted Rle (np_insert x l).
Proof.
  induction 1 as [|y l Hs IH Hy]; simpl.
  - constructor; constructor.
  - destruct (Rle_bool x y) eqn:E.
    + apply Rle_bool_true in E. constructor; [constructor; assumption|].
      constructor; [exact E|].
      eapply Forall_impl; [|exact Hy]. intros z Hz. simpl in Hz. lra.
    + apply Rle_bool_false in E. constructor; [exact IH|].
      eapply Permutation_Forall; [apply Permutation_sym, np_insert_perm|].
      constructor; [lra | exact Hy].
Qed.

Lemma np_sort_sorted (l : list R) : StronglySorted Rle (np_sort l).
Proof.
  induction l as [|x l IH]; simpl; [constructor | now apply np_insert_sorted].
Qed.

Lemma sorted_nth_le (s : list R) (i j : nat) :
  StronglySorted Rle s -> (i <= j)%nat -> (j < length s)%nat ->
  (nth i s 0 <= nth j s 0)%R.
Proof.
  intros Hs. revert i j. induction Hs as [|a s Hs IH Ha]; intros i j Hij Hj.
  - simpl in Hj. lia.
  - destruct j as [|j].
    + replace i with 0%nat by lia. simpl. lra.
    + destruct i as [|i]; simpl.
      * rewrite Forall_forall in Ha. apply Ha. apply nth_In. simpl in Hj. lia.
      * apply IH; simpl in Hj; lia.
Qed.

Lemma dropna_map_Fin (rs : list R) : dropna (map Fin rs) = rs.
Proof. induction rs as [|r rs IH]; simpl; [reflexivity | now rewrite IH]. Qed.

Lemma dropna_In (xs : Series) (r : R) : In r (dropna xs) <-> In (Fin r) xs.
Proof.
  induction xs as [|[x|] xs IH]; simpl.
  - tauto.
  - rewrite IH. split; intros [H | H]; auto; left; congruence.
  - rewrite IH. split; [auto | intros [H | H]; [discriminate | exact H]].
Qed.

(** ** Linear interpolation *)

Lemma np_lerp_eq (a b t : R) : np_lerp a b t = (a + (b - a) * t)%R.
Proof. unfold np_lerp. destruct (Rle_bool (1 / 2) t); ring. Qed.

Lemma Q2R_inject_Z (z : Z) : Q2R (inject_Z z) = IZR z.
Proof. unfold Q2R. simpl. lra. Qed.

(** The floor and the fractional part of the virtual index. *)
Lemma virtual_index_split (n : nat) (q : Q) :
  (1 <= n)%nat -> (0 <= q)%Q -> (q <= 1)%Q ->
  let h := virtual_index n q in
  let lo := Z.to_nat (Qfloor h) in
  let gamma := Q2R (h - inject_Z (Qfloor h)) in
  (lo <= n - 1)%nat /\ (0 <= gamma < 1)%R /\
  (INR lo + gamma = INR (n - 1) * Q2R q)%R.
Proof.
  intros Hn Hq0 Hq1 h lo gamma.
  assert (Hh : Q2R h = (INR (n - 1) * Q2R q)%R).
  { unfold h, virtual_index. now rewrite Q2R_mult, Q2R_inject_Z, <- INR_IZR_INZ. }
  assert (HQ0 : (0 <= Q2R q)%R).
  { replace 0%R with (Q2R 0) by (unfold Q2R; simpl; lra). now apply Qle_Rle. }
  assert (HQ1 : (Q2R q <= 1)%R).
  { replace 1%R with (Q2R 1) by (unfold Q2R; simpl; lra). now apply Qle_Rle. }
  assert (Hn0 : (0 <= INR (n - 1))%R) by apply pos_INR.
  assert (Hfl : (IZR (Qfloor h) <= Q2R h)%R).
  { rewrite <- Q2R_inject_Z. apply Qle_Rle, Qfloor_le. }
  assert (Hfu : (Q2R h < IZR (Qfloor h) + 1)%R).
  { rewrite <- plus_IZR, <- Q2R_inject_Z. apply Qlt_Rlt, Qlt_floor. }
  assert (Hf0 : (0 <= Qfloor h)%Z).
  { destruct (Z.lt_ge_cases (Qfloor h) 0) as [Hneg | Hpos]; [|exact Hpos].
    exfalso. assert (IZR (Qfloor h) + 1 <= 0)%R.
    { rewrite <- plus_IZR. apply IZR_le. lia. }
    rewrite Hh in Hfu. nra. }
  assert (Hlo : INR lo = IZR (Qfloor h)).
  { unfold lo. rewrite INR_IZR_INZ, Z2Nat.id by exact Hf0. reflexivity. }
  assert (Hg : gamma = (Q2R h - IZR (Qfloor h))%R).
  { unfold gamma. now rewrite Q2R_minus, Q2R_inject_Z. }
  split; [|split].
  - apply INR_le. rewrite Hlo.
    destruct (Z.lt_ge_cases (Z.of_nat (n - 1)) (Qfloor h)) as [Hbig | Hok].
    + exfalso. assert (INR (n - 1) + 1 <= IZR (Qfloor h))%R.
      { rewrite INR_IZR_INZ, <- plus_IZR. apply IZR_le. lia. }
      rewrite Hh in Hfl. nra.
    + rewrite INR_IZR_INZ. now apply IZR_le.
  - rewrite Hg. lra.
  - rewrite Hlo, Hg, <- Hh. ring.
Qed.

(** The interpolated value between neighbours of a sorted array grows with
    the virtual index [lo + gamma]. *)
Lemma interpolation_monotone (s : list R) (lo1 lo2 : nat) (g1 g2 : R) :
  StronglySorted Rle s ->
  (lo1 <= length s - 1)%nat -> (lo2 <= length s - 1)%nat ->
  (1 <= length s)%nat ->
  (0 <= g1 < 1)%R -> (0 <= g2 < 1)%R ->
  (INR lo1 + g1 <= INR lo2 + g2)%R ->
  (nth lo1 s 0
   + (nth (Nat.min (lo1 + 1) (length s - 1)) s 0 - nth lo1 s 0) * g1
   <= nth lo2 s 0
      + (nth (Nat.min (lo2 + 1) (length s - 1)) s 0 - nth lo2 s 0) * g2)%R.
Proof.
  intros Hs H1 H2 Hn Hg1 Hg2 Hle.
  assert (Hlo : (lo1 <= lo2)%nat).
  { destruct (Nat.le_gt_cases lo1 lo2) as [H | H]; [exact H|].
    exfalso. assert (INR lo2 + 1 <= INR lo1)%R.
    { rewrite <- S_INR. apply le_INR. lia. }
    lra. }
  assert (Ha1 : (nth lo1 s 0 <= nth (Nat.min (lo1 + 1) (length s - 1)) s 0)%R)
    by (apply sorted_nth_le; trivial; lia).
  assert (Ha2 : (nth lo2 s 0 <= nth (Nat.min (lo2 + 1) (length s - 1)) s 0)%R)
    by (apply sorted_nth_le; trivial; lia).
  destruct (Nat.eq_dec lo1 lo2) as [-> | Hne].
  - assert (g1 <= g2)%R by lra. nra.
  - assert (Hmid : (nth (Nat.min (lo1 + 1) (length s - 1)) s 0 <= nth lo2 s 0)%R)
      by (apply sorted_nth_le; trivial; lia).
    nra.
Qed.

Lemma np_quantile_monotone (q1 q2 : Q) (vs : list R) :
  vs <> [] -> (0 <= q1)%Q -> (q1 <= q2)%Q -> (q2 <= 1)%Q ->
  (np_quantile q1 vs <= np_quantile q2 vs)%R.
Proof.
  intros Hne H0 H12 H1. unfold np_quantile. rewrite !np_lerp_eq.
  assert (Hn : (1 <= length (np_sort vs))%nat).
  { rewrite np_sort_length. destruct vs; [congruence | simpl; lia]. }
  destruct (virtual_index_split (length (np_sort vs)) q1 Hn H0)
    as (Hl1 & Hg1 & He1); [eapply Qle_trans; eassumption|].
  destruct (virtual_index_split (length (np_sort vs)) q2 Hn)
    as (Hl2 & Hg2 & He2); [eapply Qle_trans; eassumption | exact H1 |].
  apply interpolation_monotone; trivial.
  - apply np_sort_sorted.
  - rewrite He1, He2. apply Rmult_le_compat_l; [apply pos_INR | now apply Qle_Rle].
Qed.

(** The quantile lies at or above the smallest element. *)
Lemma np_quantile_lower_bound (q : Q) (vs : list R) :
  vs <> [] -> (0 <= q)%Q -> (q <= 1)%Q ->
  (nth 0 (np_sort vs) 0 <= np_quantile q vs)%R.
Proof.
  intros Hne H0 H1. unfold np_quantile. rewrite np_lerp_eq.
  assert (Hn : (1 <= length (np_sort vs))%nat).
  { rewrite np_sort_length. destruct vs; [congruence | simpl; lia]. }
  destruct (virtual_index_split (length (np_sort vs)) q Hn H0 H1)
    as (Hl & Hg & He).
  set (lo := Z.to_nat (Qfloor (virtual_index (length (np_sort vs)) q))) in *.
  set (g := Q2R _) in *.
  assert (Hs := np_sort_sorted vs).
  assert (Ha : (nth 0 (np_sort vs) 0 <= nth lo (np_sort vs) 0)%R)
    by (apply sorted_nth_le; trivial; lia).
  assert (Hb : (nth lo (np_sort vs) 0
                <= nth (Nat.min (lo + 1) (length (np_sort vs) - 1)) (np_sort vs) 0)%R)
    by (apply sorted_nth_le; trivial; lia).
  nra.
Qed.

(** The median is the quantile of level one half. *)
Lemma np_median_quantile (vs : list R) :
  vs <> [] -> np_median vs = np_quantile (1 # 2) vs.
Proof.
  intros Hne. unfold np_median, np_quantile. rewrite np_lerp_eq.
  set (s := np_sort vs). set (n := length s).
  assert (Hn : (1 <= n)%nat).
  { unfold n, s. rewrite np_sort_length. destruct vs; [congruence | simpl; lia]. }
  destruct (virtual_index_split n (1 # 2) Hn) as (Hl & Hg & He);
    [discriminate | discriminate |].
  set (lo := Z.to_nat (Qfloor (virtual_index n (1 # 2)))) in *.
  set (g := Q2R _) in *.
  assert (HQ : Q2R (1 # 2) = (1 / 2)%R) by (unfold Q2R; simpl; lra).
  rewrite HQ in He.
  destruct (Nat.even n) eqn:Hev.
  - apply Nat.even_spec in Hev. destruct Hev as (k & Hk).
    assert (Hk1 : (1 <= k)%nat) by lia.
    assert (HI : INR (n - 1) = (2 * INR k - 1)%R).
    { replace (n - 1)%nat with (2 * k - 1)%nat by lia.
      rewrite minus_INR by lia. rewrite mult_INR. simpl. lra. }
    assert (Hlo : lo = (k - 1)%nat).
    { assert (Hk' : INR (k - 1) = (INR k - 1)%R) by (rewrite minus_INR by lia; simpl; lra).
      destruct (Nat.lt_trichotomy lo (k - 1)) as [H | [H | H]]; [|exact H|]; exfalso.
      - assert (INR lo + 1 <= INR (k - 1))%R by (rewrite <- S_INR; apply le_INR; lia).
        lra.
      - assert (INR (k - 1) + 1 <= INR lo)%R by (rewrite <- S_INR; apply le_INR; lia).
        lra. }
    assert (Hgv : g = (1 / 2)%R).
    { rewrite Hlo in He. rewrite minus_INR in He by lia. simpl in He. lra. }
    rewrite Hgv, Hlo.
    replace (n / 2)%nat with k by (rewrite Hk, Nat.mul_comm, Nat.div_mul; lia).
    replace (Nat.min (k - 1 + 1) (n - 1)) with k by lia.
    lra.
  - assert (Hodd : Nat.odd n = true) by (rewrite <- Nat.negb_even, Hev; reflexivity).
    apply Nat.odd_spec in Hodd. destruct Hodd as (k & Hk).
    assert (HI : INR (n - 1) = (2 * INR k)%R).
    { replace (n - 1)%nat with (2 * k)%nat by lia. rewrite mult_INR. simpl. lra. }
    assert (Hlo : lo = k).
    { destruct (Nat.lt_trichotomy lo k) as [H | [H | H]]; [|exact H|]; exfalso.
      - assert (INR lo + 1 <= INR k)%R by (rewrite <- S_INR; apply le_INR; lia).
        lra.
      - assert (INR k + 1 <= INR lo)%R by (rewrite <- S_INR; apply le_INR; lia).
        lra. }
    assert (Hgv : g = 0%R) by (rewrite Hlo in He; lra).
    rewrite Hgv, Hlo.
    replace (n / 2)%nat with k.
    2:{ rewrite Hk. replace (2 * k + 1)%nat with (1 + k * 2)%nat by lia.
        rewrite Nat.div_add by lia. reflexivity. }
    ring.
Qed.

(** ** Order statistics by rank *)

Lemma filter_length_perm {A : Type} (f : A -> bool) (l l' : list A) :
  Permutation l l' -> length (filter f l) = length (filter f l').
Proof.
  induction 1 as [| x l l' _ IH | x y l | l l' l'' _ IH1 _ IH2]; simpl.
  - reflexivity.
  - destruct (f x); simpl; now rewrite IH.
  - destruct (f x), (f y); reflexivity.
  - now rewrite IH1.
Qed.

Lemma filter_length_none {A : Type} (f : A -> bool) (l : list A) :
  Forall (fun x => f x = false) l -> length (filter f l) = 0%nat.
Proof.
  induction 1 as [|x l Hx _ IH]; simpl; [reflexivity | now rewrite Hx].
Qed.

Lemma filter_length_bound {A : Type} (f : A -> bool) (l : list A) :
  (length (filter f l) <= length l)%nat.
Proof.
  induction l as [|x l IH]; simpl; [lia | destruct (f x); simpl; lia].
Qed.

Lemma filter_length_impl {A : Type} (f g : A -> bool) (l : list A) :
  (forall x, f x = true -> g x = true) ->
  (length (filter f l) <= length (filter g l))%nat.
Proof.
  intros Hfg. induction l as [|x l IH]; simpl; [lia|].
  destruct (f x) eqn:Hf.
  - rewrite (Hfg x Hf). simpl. lia.
  - destruct (g x); simpl; lia.
Qed.

(** In a sorted array the element at index [k] has rank [k]. *)
Lemma sorted_rank (s : list R) (k : nat) :
  StronglySorted Rle s -> (k < length s)%nat ->
  (count_lt (nth k s 0%R) s <= k)%nat /\ (k < count_le (nth k s 0%R) s)%nat.
Proof.
  intros Hs. revert k. unfold count_lt, count_le.
  induction Hs as [|a s Hs IH Ha]; intros k Hk; [simpl in Hk; lia|].
  destruct k as [|k]; cbn [nth filter].
  - assert (E1 : Rlt_bool a a = false) by (apply Rlt_bool_false; lra).
    assert (E2 : Rle_bool a a = true) by (apply Rle_bool_true; lra).
    rewrite E1, E2. split; [|simpl; lia].
    rewrite filter_length_none; [lia|].
    eapply Forall_impl; [|exact Ha]. intros x Hx. simpl in Hx.
    now apply Rlt_bool_false.
  - simpl in Hk. destruct (IH k) as (H1 & H2); [lia|].
    assert (Hav : (a <= nth k s 0)%R).
    { rewrite Forall_forall in Ha. apply Ha, nth_In. lia. }
    apply Rle_bool_true in Hav. rewrite Hav.
    destruct (Rlt_bool a (nth k s 0%R)); simpl; lia.
Qed.

Lemma np_sort_order_statistic (vs : list R) (k : nat) :
  (k < length vs)%nat -> order_statistic vs k (nth k (np_sort vs) 0%R).
Proof.
  intros Hk. assert (Hp := np_sort_perm vs).
  assert (Hk' : (k < length (np_sort vs))%nat) by now rewrite np_sort_length.
  destruct (sorted_rank (np_sort vs) k (np_sort_sorted vs) Hk') as (H1 & H2).
  unfold order_statistic, count_lt, count_le in *.
  rewrite <- (filter_length_perm _ _ _ Hp).
  rewrite <- (filter_length_perm (fun x => Rle_bool x _) _ _ Hp).
  repeat split; trivial.
  eapply Permutation_in; [exact Hp | now apply nth_In].
Qed.



(** The array quantile is the linear quantile of the specification. *)
Lemma np_quantile_linear (q : Q) (vs : list R) :
  vs <> [] -> (0 <= q)%Q -> (q <= 1)%Q ->
  linear_quantile (Q2R q) vs (np_quantile q vs).
Proof.
  intros Hne H0 H1. unfold np_quantile. rewrite np_lerp_eq.
  rewrite np_sort_length.
  assert (Hn : (1 <= length vs)%nat) by (destruct vs; [congruence | simpl; lia]).
  destruct (virtual_index_split (length vs) q Hn H0 H1) as (Hl & Hg & He).
  set (lo := Z.to_nat (Qfloor (virtual_index (length vs) q))) in *.
  set (g := Q2R _) in *.
  exists lo, (nth lo (np_sort vs) 0%R),
    (nth (Nat.min (lo + 1) (length vs - 1)) (np_sort vs) 0%R).
  split; [lra|]. split; [apply np_sort_order_statistic; lia|].
  split; [apply np_sort_order_statistic; lia|].
  replace (INR (length vs - 1) * Q2R q - INR lo)%R with g by lra. ring.
Qed.

Lemma series_quantile_linear (q : Q) (xs : Series) :
  (0 <= q)%Q -> (q <= 1)%Q ->
  series_linear_quantile (Q2R q) xs (series_quantile xs q).
Proof.
  intros H0 H1. unfold series_quantile, series_linear_quantile.
  destruct (dropna xs) as [|v vs] eqn:E; [reflexivity|].
  apply np_quantile_linear; trivial. discriminate.
Qed.

(** ** Series reductions *)

Lemma series_quantile_le (xs : Series) (q1 q2 : Q) :
  dropna xs <> [] -> (0 <= q1)%Q -> (q1 <= q2)%Q -> (q2 <= 1)%Q ->
  fle (series_quantile xs q1) (series_quantile xs q2).
Proof.
  intros Hne H0 H12 H1. unfold series_quantile.
  destruct (dropna xs) as [|v vs]; [congruence|].
  apply fle_Fin. apply np_quantile_monotone; trivial.
Qed.

Lemma series_median_quantile (xs : Series) :
  series_median xs = series_quantile xs (1 # 2).
Proof.
  unfold series_median, series_quantile.
  destruct (dropna xs) as [|v vs]; [reflexivity|].
  f_equal. apply np_median_quantile. discriminate.
Qed.

Lemma series_quantile_singleton (x : R) (q : Q) :
  series_quantile [Fin x] q = Fin x.
Proof.
  change (series_quantile [Fin x] q) with (Fin (np_quantile q [x])). f_equal.
  unfold np_quantile. rewrite np_lerp_eq. simpl np_sort. simpl length.
  assert (Hfl : Qfloor (virtual_index 1 q) = 0%Z) by (destruct q; reflexivity).
  rewrite Hfl. simpl. ring.
Qed.

Lemma series_mean_map_Fin (ts : list R) :
  ts <> [] -> series_mean (map Fin ts) = Fin (arithmetic_mean ts).
Proof.
  intros Hne. unfold series_mean, arithmetic_mean. rewrite dropna_map_Fin.
  destruct ts; [congruence | reflexivity].
Qed.

(** Only numbers pass the selection [r <= var]. *)
Lemma tail_of_finite (xs : Series) (var : pyfloat) :
  exists ts, tail_of xs var = map Fin ts.
Proof.
  unfold tail_of. induction xs as [|x xs (ts & IH)]; cbn [filter].
  - now exists [].
  - destruct (fleb x var) eqn:E; [|now exists ts].
    destruct x as [r|]; [|discriminate].
    exists (r :: ts). simpl. now rewrite IH.
Qed.

(** The smallest observation lies in the tail of every quantile. *)
Lemma tail_of_quantile_nonempty (xs : Series) (q : Q) :
  dropna xs <> [] -> (0 <= q)%Q -> (q <= 1)%Q ->
  tail_of xs (series_quantile xs q) <> [].
Proof.
  intros Hne H0 H1. unfold series_quantile.
  destruct (dropna xs) as [|v vs] eqn:E; [congruence|].
  assert (Hnz : v :: vs <> []) by discriminate.
  assert (Hlow := np_quantile_lower_bound q (v :: vs) Hnz H0 H1).
  set (m := nth 0 (np_sort (v :: vs)) 0%R) in *.
  assert (Hin : In (Fin m) xs).
  { apply dropna_In. rewrite E.
    eapply Permutation_in; [apply np_sort_perm|].
    apply nth_In. rewrite np_sort_length. simpl. lia. }
  assert (Hsel : In (Fin m) (tail_of xs (Fin (np_quantile q (v :: vs))))).
  { unfold tail_of. apply filter_In. split; [exact Hin|].
    simpl. now apply Rle_bool_true. }
  intros Hnil. rewrite Hnil in Hsel. exact Hsel.
Qed.

Lemma no_nan_map_Fin (xs : Series) :
  Forall (fun p => isnan p = false) xs -> exists ps, xs = map Fin ps.
Proof.
  induction 1 as [|x xs Hx _ (ps & ->)].
  - now exists [].
  - destruct x as [r|]; [|discriminate]. now exists (r :: ps).
Qed.

Lemma returns_of_map_Fin (ps : list R) (s : R) :
  s <> 0%R ->
  returns_of (map Fin ps) (Fin s) = map Fin (map (fun p => p / s - 1)%R ps).
Proof.
  intros Hs. unfold returns_of. rewrite !map_map. apply map_ext.
  intros p. now rewrite fdiv_Fin.
Qed.

Lemma returns_of_observed (final_prices : Series) (s p : R) :
  s <> 0%R -> In (Fin p) final_prices ->
  dropna (returns_of final_prices (Fin s)) <> [].
Proof.
  intros Hs Hin Hnil.
  assert (H : In (p / s - 1)%R (dropna (returns_of final_prices (Fin s)))).
  { apply dropna_In. unfold returns_of. apply in_map_iff.
    exists (Fin p). split; [|exact Hin]. now rewrite fdiv_Fin. }
  rewrite Hnil in H. exact H.
Qed.

Lemma mask_mean_nonempty (bs : list bool) :
  bs <> [] -> mask_mean bs = Fin (INR (count_true bs) / INR (length bs)).
Proof. destruct bs; [congruence | reflexivity]. Qed.

Lemma mask_mean_complement {A : Type} (f g : A -> bool) (l : list A) :
  l <> [] -> (forall x, In x l -> g x = negb (f x)) ->
  fadd (mask_mean (map f l)) (mask_mean (map g l)) = Fin 1%R.
Proof.
  intros Hne Hfg.
  assert (Hcount : (count_true (map f l) + count_true (map g l) = length l)%nat).
  { clear Hne. unfold count_true. induction l as [|x l IH]; simpl; [reflexivity|].
    rewrite (Hfg x) by (now left).
    assert (IH' := IH (fun y Hy => Hfg y (or_intror Hy))).
    destruct (f x); simpl; lia. }
  assert (Hn : INR (length l) <> 0%R).
  { apply not_0_INR. destruct l; [congruence | discriminate]. }
  rewrite !mask_mean_nonempty by (destruct l; [congruence | discriminate]).
  rewrite !length_map. unfold fadd, lift2. f_equal.
  apply (f_equal INR) in Hcount. rewrite plus_INR in Hcount.
  rewrite <- Hcount. field. now rewrite Hcount.
Qed.

(** ** The analyzer on a frame *)

Lemma iloc_last_frame (rows : DataFrame) (final_prices : Series) :
  iloc_last (frame_ending rows final_prices) = inr final_prices.
Proof.
  unfold iloc_last, frame_ending. now rewrite rev_app_distr.
Qed.

Lemma analyze_frame (rows : DataFrame) (final_prices : Series) (start_price : pyfloat) :
  analyze_simulation_results (frame_ending rows final_prices) start_price
  = inr (analyze_final_prices final_prices start_price).
Proof.
  unfold analyze_simulation_results. now rewrite iloc_last_frame.
Qed.

Lemma level_bounds :
  (0 <= 0.01)%Q /\ (0.01 <= 0.05)%Q /\ (0.05 <= 0.25)%Q /\ (0.25 <= 1 # 2)%Q /\
  (1 # 2 <= 0.75)%Q /\ (0.75 <= 0.95)%Q /\ (0.95 <= 1)%Q.
Proof. repeat split; discriminate. Qed.

(** The decimal levels as fractions. *)
Lemma level_values : 0.05%R = (5 / 100)%R /\ 0.01%R = (1 / 100)%R.
Proof. split; unfold Q2R; simpl; lra. Qed.

(** ** The analyzer: empty input, VaR, CVaR, probabilities, ordering *)

(** C3, as the code has it.  On a frame whose last row has no columns the
    analyzer raises nothing and returns a complete result in which every
    price prediction, every risk metric, the expected return and the
    standard deviation are [NaN]. *)
Theorem analyze_empty_cross_section (rows : DataFrame) (start_price : pyfloat) :
  analyze_simulation_results (frame_ending rows []) start_price
  = inr (mkAnalysis
           (mkPricePredictions NaN NaN NaN NaN NaN NaN)
           (mkRiskMetrics NaN NaN NaN NaN NaN NaN NaN NaN)
           (mkStatisticalSummary NaN NaN)
           []).
Proof. rewrite analyze_frame. reflexivity. Qed.

(** C3 fails as stated: with zero paths the analyzer returns a result. *)
Lemma analyze_zero_paths_returns :
  exists a,
    analyze_simulation_results [[]] (Fin 100%R) = inr a /\
    final_prices a = [] /\
    VaR_95 (risk_metrics a) = NaN /\
    prob_loss (risk_metrics a) = NaN.
Proof. eexists. split; [reflexivity|]. repeat split. Qed.

(** C4.  For a non-empty final-price vector and a start price above zero,
    [VaR_95] and [VaR_99] are the linear-interpolation quantiles of levels
    0.05 and 0.01 of the returns [final_prices[i] / start_price - 1] of all
    paths; when all prices are numbers the two values are numbers and are
    the quantiles of the real returns [p / s - 1]. *)
Theorem var_is_linear_quantile
    (rows : DataFrame) (final_prices : Series) (start_price : pyfloat) :
  final_prices <> [] ->
  flt (Fin 0%R) start_price ->
  exists a,
    analyze_simulation_results (frame_ending rows final_prices) start_price = inr a /\
    series_linear_quantile 0.05%R
      (map (fun p => fsub (fdiv p start_price) (Fin 1%R)) final_prices)
      (VaR_95 (risk_metrics a)) /\
    series_linear_quantile 0.01%R
      (map (fun p => fsub (fdiv p start_price) (Fin 1%R)) final_prices)
      (VaR_99 (risk_metrics a)) /\
    forall ps s, final_prices = map Fin ps -> start_price = Fin s ->
      exists v95 v99,
        VaR_95 (risk_metrics a) = Fin v95 /\
        VaR_99 (risk_metrics a) = Fin v99 /\
        linear_quantile 0.05%R (map (fun p => p / s - 1)%R ps) v95 /\
        linear_quantile 0.01%R (map (fun p => p / s - 1)%R ps) v99.
Proof.
  intros Hne Hpos. rewrite analyze_frame. eexists. split; [reflexivity|].
  destruct level_bounds as (B0 & B1 & B2 & B3 & B4 & B5 & B6).
  assert (H5 : (0.05 <= 1)%Q) by discriminate.
  assert (H1 : (0.01 <= 1)%Q) by discriminate.
  assert (H0 : (0 <= 0.05)%Q) by discriminate.
  cbn [risk_metrics analyze_final_prices VaR_95 VaR_99].
  fold (returns_of final_prices start_price).
  split; [now apply (series_quantile_linear 0.05)|].
  split; [now apply (series_quantile_linear 0.01)|].
  intros ps s -> ->.
  assert (Hs : s <> 0%R).
  { unfold flt in Hpos. simpl in Hpos. apply Rlt_bool_true in Hpos. lra. }
  rewrite returns_of_map_Fin by exact Hs.
  unfold series_quantile. rewrite dropna_map_Fin.
  destruct ps as [|p ps]; [now elim Hne|]. cbn [map].
  do 2 eexists. split; [reflexivity|]. split; [reflexivity|].
  split.
  - apply (np_quantile_linear 0.05); trivial. discriminate.
  - apply (np_quantile_linear 0.01); trivial. discriminate.
Qed.

Lemma var_is_linear_quantile_witness :
  [Fin 100%R; Fin 100%R] <> [] /\ flt (Fin 0%R) (Fin 100%R) /\
  exists a,
    analyze_simulation_results
      (frame_ending [[Fin 100%R; Fin 100%R]] [Fin 100%R; Fin 100%R]) (Fin 100%R)
    = inr a /\
    series_linear_quantile 0.05%R
      (map (fun p => fsub (fdiv p (Fin 100%R)) (Fin 1%R)) [Fin 100%R; Fin 100%R])
      (VaR_95 (risk_metrics a)) /\
    series_linear_quantile 0.01%R
      (map (fun p => fsub (fdiv p (Fin 100%R)) (Fin 1%R)) [Fin 100%R; Fin 100%R])
      (VaR_99 (risk_metrics a)) /\
    forall ps s, [Fin 100%R; Fin 100%R] = map Fin ps -> Fin 100%R = Fin s ->
      exists v95 v99,
        VaR_95 (risk_metrics a) = Fin v95 /\
        VaR_99 (risk_metrics a) = Fin v99 /\
        linear_quantile 0.05%R (map (fun p => p / s - 1)%R ps) v95 /\
        linear_quantile 0.01%R (map (fun p => p / s - 1)%R ps) v99.
Proof.
  assert (H1 : [Fin 100%R; Fin 100%R] <> []) by discriminate.
  assert (H2 : flt (Fin 0%R) (Fin 100%R)).
  { unfold flt; simpl. apply Rlt_bool_true. lra. }
  split; [exact H1|]. split; [exact H2|].
  exact (var_is_linear_quantile [[Fin 100%R; Fin 100%R]] [Fin 100%R; Fin 100%R]
           (Fin 100%R) H1 H2).
Defined.




(** C7, as the code has it.  For a non-empty final-price vector without
    [NaN] entries and a start price above zero, [prob_loss] and the
    fraction of paths with a final price at or above the start price add up
    to exactly 1. *)
Theorem prob_loss_complement
    (rows : DataFrame) (final_prices : Series) (start_price : pyfloat) :
  final_prices <> [] ->
  Forall (fun p => isnan p = false) final_prices ->
  flt (Fin 0%R) start_price ->
  exists a,
    analyze_simulation_results (frame_ending rows final_prices) start_price = inr a /\
    fadd (prob_loss (risk_metrics a)) (fraction_at_least final_prices start_price)
    = Fin 1%R.
Proof.
  intros Hne Hnan Hpos. rewrite analyze_frame. eexists. split; [reflexivity|].
  cbn [risk_metrics analyze_final_prices prob_loss]. unfold fraction_at_least.
  apply mask_mean_complement; [exact Hne|].
  intros p Hp. rewrite Forall_forall in Hnan. specialize (Hnan p Hp).
  destruct p as [x|]; [|discriminate].
  destruct start_price as [s|]; [|discriminate].
  unfold fgeb, fleb, fltb.
  destruct (Rlt_bool x s) eqn:E; simpl.
  - apply Rlt_bool_true in E. apply Rle_bool_false. exact E.
  - apply Rlt_bool_false in E. apply Rle_bool_true. exact E.
Qed.

Lemma prob_loss_complement_witness :
  [Fin 90%R; Fin 110%R] <> [] /\
  Forall (fun p => isnan p = false) [Fin 90%R; Fin 110%R] /\
  flt (Fin 0%R) (Fin 100%R) /\
  exists a,
    analyze_simulation_results
      (frame_ending [[Fin 100%R; Fin 100%R]] [Fin 90%R; Fin 110%R]) (Fin 100%R)
    = inr a /\
    fadd (prob_loss (risk_metrics a))
         (fraction_at_least [Fin 90%R; Fin 110%R] (Fin 100%R))
    = Fin 1%R.
Proof.
  assert (H1 : [Fin 90%R; Fin 110%R] <> []) by discriminate.
  assert (H2 : Forall (fun p => isnan p = false) [Fin 90%R; Fin 110%R])
    by (repeat constructor).
  assert (H3 : flt (Fin 0%R) (Fin 100%R)).
  { unfold flt; simpl. apply Rlt_bool_true. lra. }
  split; [exact H1|]. split; [exact H2|]. split; [exact H3|].
  exact (prob_loss_complement [[Fin 100%R; Fin 100%R]] [Fin 90%R; Fin 110%R]
           (Fin 100%R) H1 H2 H3).
Defined.

(** C7 fails as stated: a final price that is [NaN] is neither below nor
    at or above the start price, so both fractions are 0. *)
Lemma prob_loss_complement_fails_on_nan :
  exists a,
    analyze_simulation_results [[NaN]] (Fin 1%R) = inr a /\
    fadd (prob_loss (risk_metrics a)) (fraction_at_least [NaN] (Fin 1%R))
    = Fin 0%R /\
    Fin 0%R <> Fin 1%R.
Proof.
  eexists. split; [reflexivity|]. split.
  - simpl. f_equal. lra.
  - intros H. injection H as H. lra.
Qed.

(** C8, as the code has it.  When at least one final price is a number the
    price percentiles are ordered, 5th <= 25th <= median <= 75th <= 95th,
    and when in addition the start price is a number other than zero,
    [VaR_99 <= VaR_95].  The bound [VaR_95 <= 0] of the claim does not hold
    in general (see the counterexample below) and is left out. *)
Theorem percentiles_ordered
    (rows : DataFrame) (final_prices : Series) (start_price : pyfloat) :
  (exists p, In (Fin p) final_prices) ->
  exists a,
    analyze_simulation_results (frame_ending rows final_prices) start_price = inr a /\
    fle (percentile_5th (price_predictions a)) (percentile_25th (price_predictions a)) /\
    fle (percentile_25th (price_predictions a))
        (median_predicted_price (price_predictions a)) /\
    fle (median_predicted_price (price_predictions a))
        (percentile_75th (price_predictions a)) /\
    fle (percentile_75th (price_predictions a)) (percentile_95th (price_predictions a)) /\
    forall s, start_price = Fin s -> s <> 0%R ->
      fle (VaR_99 (risk_metrics a)) (VaR_95 (risk_metrics a)).
Proof.
  intros (p & Hp). rewrite analyze_frame. eexists. split; [reflexivity|].
  destruct level_bounds as (B0 & B1 & B2 & B3 & B4 & B5 & B6).
  assert (Hobs : dropna final_prices <> []).
  { intros Hnil. apply dropna_In in Hp. rewrite Hnil in Hp. exact Hp. }
  cbn [price_predictions risk_metrics analyze_final_prices percentile_5th
       percentile_25th percentile_75th percentile_95th median_predicted_price
       VaR_95 VaR_99].
  rewrite series_median_quantile.
  split; [apply series_quantile_le; trivial; discriminate|].
  split; [apply series_quantile_le; trivial; discriminate|].
  split; [apply series_quantile_le; trivial; discriminate|].
  split; [apply series_quantile_le; trivial; discriminate|].
  intros s -> Hs. apply series_quantile_le; trivial; try discriminate.
  now apply (returns_of_observed final_prices s p).
Qed.

Lemma percentiles_ordered_witness :
  (exists p, In (Fin p) [Fin 90%R; Fin 110%R]) /\
  exists a,
    analyze_simulation_results
      (frame_ending [[Fin 100%R; Fin 100%R]] [Fin 90%R; Fin 110%R]) (Fin 100%R)
    = inr a /\
    fle (percentile_5th (price_predictions a)) (percentile_25th (price_predictions a)) /\
    fle (percentile_25th (price_predictions a))
        (median_predicted_price (price_predictions a)) /\
    fle (median_predicted_price (price_predictions a))
        (percentile_75th (price_predictions a)) /\
    fle (percentile_75th (price_predictions a)) (percentile_95th (price_predictions a)) /\
    forall s, Fin 100%R = Fin s -> s <> 0%R ->
      fle (VaR_99 (risk_metrics a)) (VaR_95 (risk_metrics a)).
Proof.
  assert (H1 : exists p, In (Fin p) [Fin 90%R; Fin 110%R]).
  { exists 90%R. simpl. left. reflexivity. }
  split; [exact H1|].
  exact (percentiles_ordered [[Fin 100%R; Fin 100%R]] [Fin 90%R; Fin 110%R]
           (Fin 100%R) H1).
Defined.

(** C8 fails as stated: when the single path doubles the price, [VaR_95]
    is 1 and not at most 0; a final-price vector holding only [NaN] has
    [NaN] percentiles, which are not ordered; and a start price of zero
    with a final price of zero makes both VaR values [NaN]. *)
Lemma var_95_can_be_positive :
  (exists a,
     analyze_simulation_results [[Fin 200%R]] (Fin 100%R) = inr a /\
     VaR_95 (risk_metrics a) = Fin 1%R /\
     ~ fle (VaR_95 (risk_metrics a)) (Fin 0%R)) /\
  (exists a,
     analyze_simulation_results [[NaN]] (Fin 100%R) = inr a /\
     ~ fle (percentile_5th (price_predictions a))
           (percentile_25th (price_predictions a))) /\
  (exists a,
     analyze_simulation_results [[Fin 0%R]] (Fin 0%R) = inr a /\
     ~ fle (VaR_99 (risk_metrics a)) (VaR_95 (risk_metrics a))).
Proof.
  assert (Hret : returns_of [Fin 200%R] (Fin 100%R) = [Fin 1%R]).
  { unfold returns_of. cbn [map]. rewrite fdiv_Fin by lra.
    simpl. do 2 f_equal. lra. }
  assert (Hzero : returns_of [Fin 0%R] (Fin 0%R) = [NaN]).
  { unfold returns_of. cbn [map]. unfold fdiv.
    assert (E : Req_bool 0 0 = true) by now apply Req_bool_true.
    now rewrite E. }
  split; [|split].
  - eexists. split; [reflexivity|].
    cbn [risk_metrics analyze_final_prices VaR_95].
    rewrite Hret, series_quantile_singleton.
    split; [reflexivity|].
    intros H. apply fle_Fin in H. lra.
  - eexists. split; [reflexivity|]. intros H. discriminate H.
  - eexists. split; [reflexivity|].
    cbn [risk_metrics analyze_final_prices VaR_95 VaR_99].
    rewrite Hzero. intros H. discriminate H.
Qed.

(** C10, as the code has it.  For a non-empty final-price vector without
    [NaN] entries and a start price that is a number other than zero, the
    selection [r <= VaR] holds at least one return at both confidence
    levels, and neither [CVaR_95] nor [CVaR_99] is [NaN]. *)
Theorem cvar_is_a_number
    (rows : DataFrame) (final_prices : Series) (start_price : pyfloat) :
  final_prices <> [] ->
  Forall (fun p => isnan p = false) final_prices ->
  isnan start_price = false ->
  start_price <> Fin 0%R ->
  exists a,
    analyze_simulation_results (frame_ending rows final_prices) start_price = inr a /\
    filter (fun r => fleb r (VaR_95 (risk_metrics a)))
      (map (fun p => fsub (fdiv p start_price) (Fin 1%R)) final_prices) <> [] /\
    filter (fun r => fleb r (VaR_99 (risk_metrics a)))
      (map (fun p => fsub (fdiv p start_price) (Fin 1%R)) final_prices) <> [] /\
    isnan (CVaR_95 (risk_metrics a)) = false /\
    isnan (CVaR_99 (risk_metrics a)) = false.
Proof.
  intros Hne Hnan Hs Hs0. rewrite analyze_frame. eexists. split; [reflexivity|].
  destruct start_price as [s|]; [|discriminate].
  assert (Hsr : s <> 0%R) by (intros ->; now apply Hs0).
  destruct (no_nan_map_Fin _ Hnan) as (ps & ->).
  destruct ps as [|p ps]; [now elim Hne|].
  assert (Hobs : dropna (returns_of (map Fin (p :: ps)) (Fin s)) <> []).
  { apply (returns_of_observed _ s p Hsr). simpl. now left. }
  cbn [risk_metrics analyze_final_prices VaR_95 VaR_99 CVaR_95 CVaR_99].
  fold (returns_of (map Fin (p :: ps)) (Fin s)).
  set (returns := returns_of (map Fin (p :: ps)) (Fin s)) in *.
  fold (tail_of returns (series_quantile returns 0.05)).
  fold (tail_of returns (series_quantile returns 0.01)).
  assert (T95 : tail_of returns (series_quantile returns 0.05) <> [])
    by (apply tail_of_quantile_nonempty; trivial; discriminate).
  assert (T99 : tail_of returns (series_quantile returns 0.01) <> [])
    by (apply tail_of_quantile_nonempty; trivial; discriminate).
  split; [exact T95|]. split; [exact T99|].
  destruct (tail_of_finite returns (series_quantile returns 0.05)) as (t95 & E95).
  destruct (tail_of_finite returns (series_quantile returns 0.01)) as (t99 & E99).
  rewrite E95, E99 in *.
  rewrite !series_mean_map_Fin; [split; reflexivity | |].
  - intros ->. now apply T99.
  - intros ->. now apply T95.
Qed.

Lemma cvar_is_a_number_witness :
  [Fin 90%R; Fin 110%R] <> [] /\
  Forall (fun p => isnan p = false) [Fin 90%R; Fin 110%R] /\
  isnan (Fin 100%R) = false /\
  Fin 100%R <> Fin 0%R /\
  exists a,
    analyze_simulation_results
      (frame_ending [[Fin 100%R; Fin 100%R]] [Fin 90%R; Fin 110%R]) (Fin 100%R)
    = inr a /\
    filter (fun r => fleb r (VaR_95 (risk_metrics a)))
      (map (fun p => fsub (fdiv p (Fin 100%R)) (Fin 1%R)) [Fin 90%R; Fin 110%R])
    <> [] /\
    filter (fun r => fleb r (VaR_99 (risk_metrics a)))
      (map (fun p => fsub (fdiv p (Fin 100%R)) (Fin 1%R)) [Fin 90%R; Fin 110%R])
    <> [] /\
    isnan (CVaR_95 (risk_metrics a)) = false /\
    isnan (CVaR_99 (risk_metrics a)) = false.
Proof.
  assert (H1 : [Fin 90%R; Fin 110%R] <> []) by discriminate.
  assert (H2 : Forall (fun p => isnan p = false) [Fin 90%R; Fin 110%R])
    by (repeat constructor).
  assert (H3 : isnan (Fin 100%R) = false) by reflexivity.
  assert (H4 : Fin 100%R <> Fin 0%R).
  { intros H. injection H as H. lra. }
  split; [exact H1|]. split; [exact H2|]. split; [exact H3|]. split; [exact H4|].
  exact (cvar_is_a_number [[Fin 100%R; Fin 100%R]] [Fin 90%R; Fin 110%R]
           (Fin 100%R) H1 H2 H3 H4).
Defined.

(** C10 fails as stated: with the start price zero and a final price of
    zero the return is [0 / 0 - 1], which is [NaN]; the selection is empty
    and [CVaR_95] is [NaN], although the final-price vector holds no
    [NaN]. *)
Lemma cvar_nan_for_zero_start_price :
  Forall (fun p => isnan p = false) [Fin 0%R] /\
  exists a,
    analyze_simulation_results [[Fin 0%R]] (Fin 0%R) = inr a /\
    filter (fun r => fleb r (VaR_95 (risk_metrics a)))
      (map (fun p => fsub (fdiv p (Fin 0%R)) (Fin 1%R)) [Fin 0%R]) = [] /\
    CVaR_95 (risk_metrics a) = NaN /\
    CVaR_99 (risk_metrics a) = NaN.
Proof.
  assert (Hzero : returns_of [Fin 0%R] (Fin 0%R) = [NaN]).
  { unfold returns_of. cbn [map]. unfold fdiv.
    assert (E : Req_bool 0 0 = true) by now apply Req_bool_true.
    now rewrite E. }
  split; [repeat constructor|].
  eexists. split; [reflexivity|].
  cbn [risk_metrics analyze_final_prices VaR_95 VaR_99 CVaR_95 CVaR_99].
  fold (returns_of [Fin 0%R] (Fin 0%R)). rewrite Hzero.
  repeat split.
Qed.

(** ** The end-to-end example of the specification *)

(** The quantile of a sample whose observations are all equal. *)
Lemma np_quantile_constant (q : Q) (vs : list R) (x : R) :
  vs <> [] -> (forall v, In v vs -> v = x) -> (0 <= q)%Q -> (q <= 1)%Q ->
  np_quantile q vs = x.
Proof.
  intros Hne Hall H0 H1. unfold np_quantile. rewrite np_lerp_eq.
  assert (Hn : (1 <= length (np_sort vs))%nat).
  { rewrite np_sort_length. destruct vs; [congruence | simpl; lia]. }
  destruct (virtual_index_split (length (np_sort vs)) q Hn H0 H1) as (Hl & _ & _).
  set (lo := Z.to_nat (Qfloor (virtual_index (length (np_sort vs)) q))) in *.
  assert (Hnth : forall i, (i < length (np_sort vs))%nat -> nth i (np_sort vs) 0%R = x).
  { intros i Hi. apply Hall.
    eapply Permutation_in; [apply np_sort_perm | now apply nth_In]. }
  rewrite !Hnth by lia. ring.
Qed.

Example simulate_flat :
  fst (run_monte_carlo_simulation (Fin 100%R) (Fin 0%R) (Fin 0%R) 3 2
         (constant_state 0%R))
  = inr [[Fin 100%R; Fin 100%R]; [Fin 100%R; Fin 100%R]; [Fin 100%R; Fin 100%R]].
Proof.
  assert (E : exp (0 + 0 * 0) = 1%R).
  { replace (0 + 0 * 0)%R with 0%R by ring. apply exp_0. }
  simpl. rewrite !E.
  change (Pos.to_nat 3) with 3%nat.
  unfold price_loop, price_step, set_row, get_row. simpl.
  repeat f_equal; ring.
Qed.

Example analyze_flat :
  exists a,
    analyze_simulation_results
      [[Fin 100%R; Fin 100%R]; [Fin 100%R; Fin 100%R]; [Fin 100%R; Fin 100%R]]
      (Fin 100%R) = inr a /\
    prob_loss (risk_metrics a) = Fin 0%R /\
    expected_return (statistical_summary a) = Fin 0%R /\
    VaR_95 (risk_metrics a) = Fin 0%R /\
    VaR_99 (risk_metrics a) = Fin 0%R /\
    mean_predicted_price (price_predictions a) = Fin 100%R.
Proof.
  assert (Hret : returns_of [Fin 100%R; Fin 100%R] (Fin 100%R) = [Fin 0%R; Fin 0%R]).
  { change [Fin 100%R; Fin 100%R] with (map Fin [100%R; 100%R]).
    rewrite returns_of_map_Fin by lra. simpl. repeat f_equal; lra. }
  assert (Hq : forall q, (0 <= q)%Q -> (q <= 1)%Q ->
                 series_quantile [Fin 0%R; Fin 0%R] q = Fin 0%R).
  { intros q H0 H1.
    change (series_quantile [Fin 0%R; Fin 0%R] q)
      with (Fin (np_quantile q [0%R; 0%R])).
    f_equal.
    apply np_quantile_constant; trivial; [discriminate|].
    intros v [<- | [<- | []]]; reflexivity. }
  assert (Hlt : Rlt_bool 100 100 = false) by (apply Rlt_bool_false; lra).
  eexists. split; [reflexivity|].
  cbn [risk_metrics statistical_summary price_predictions analyze_final_prices
       prob_loss expected_return VaR_95 VaR_99 mean_predicted_price].
  rewrite Hret. repeat split.
  - cbn [map fltb]. rewrite Hlt. simpl. f_equal. lra.
  - unfold series_mean. simpl. f_equal. lra.
  - apply Hq; discriminate.
  - apply Hq; discriminate.
  - unfold series_mean. simpl. f_equal. lra.
Qed.

(** ** More on the simulator: the frame cell by cell *)

Lemma row_mul_nth (a b : list pyfloat) (p : nat) :
  (p < length a)%nat -> (p < length b)%nat ->
  nth p (row_mul a b) NaN = fmul (nth p a NaN) (nth p b NaN).
Proof.
  revert b p. induction a as [|x a IH]; intros [|y b] p Ha Hb; simpl in *; try lia.
  destruct p as [|p]; [reflexivity | apply IH; lia].
Qed.

Lemma random_normal_cells (rows cols : Z) (st st' : RandomState) (z : list (list R))
    (i j : nat) :
  random_normal rows cols st = (inr z, st') ->
  (i < Z.to_nat rows)%nat -> (j < Z.to_nat cols)%nat ->
  nth j (nth i z []) 0%R = draw st (Z.to_nat cols) i j.
Proof.
  unfold random_normal. destruct ((rows <? 0)%Z || (cols <? 0)%Z)%bool; [discriminate|].
  intros H Hi Hj. injection H as <- _.
  set (c := Z.to_nat cols) in *.
  rewrite nth_indep with (d' := (fun i => map (fun j => stream st (cursor st + i * c + j))
                                           (seq 0 c)) 0%nat)
    by (now rewrite length_map, length_seq).
  rewrite (map_nth (fun i => map (fun j => stream st (cursor st + i * c + j)) (seq 0 c))).
  rewrite seq_nth by exact Hi.
  rewrite nth_indep with (d' := (fun j => stream st (cursor st + (0 + i) * c + j)) 0%nat)
    by (now rewrite length_map, length_seq).
  rewrite (map_nth (fun j => stream st (cursor st + (0 + i) * c + j))).
  rewrite seq_nth by exact Hj. reflexivity.
Qed.

Lemma daily_returns_cells (drift volatility : pyfloat) (z : list (list R))
    (c t p : nat) :
  Forall (fun row => length row = c) z ->
  (t < length z)%nat -> (p < c)%nat ->
  nth p (get_row (daily_returns_of drift volatility z) t) NaN
  = fexp (fadd drift (fmul volatility (Fin (nth p (nth t z []) 0%R)))).
Proof.
  intros Hz Ht Hp. unfold get_row, daily_returns_of.
  set (f := fun x => fexp (fadd drift (fmul volatility (Fin x)))).
  rewrite nth_indep with (d' := map f []) by (now rewrite length_map).
  rewrite map_nth.
  assert (Hlen : length (nth t z []) = c).
  { rewrite Forall_forall in Hz. apply Hz. now apply nth_In. }
  rewrite nth_indep with (d' := f 0%R) by (rewrite length_map; lia).
  now rewrite map_nth.
Qed.

(** A run with at least one step returns a frame whose cells obey the
    recurrence of the loop. *)
Lemma run_monte_carlo_simulation_cells
    (start_price drift volatility : pyfloat)
    (forecast_period num_simulations : Z) (st : RandomState) :
  (1 <= forecast_period)%Z -> (0 <= num_simulations)%Z ->
  exists m,
    fst (run_monte_carlo_simulation start_price drift volatility
           forecast_period num_simulations st) = inr m /\
    length m = Z.to_nat forecast_period /\
    (forall t, (t < Z.to_nat forecast_period)%nat ->
       length (get_row m t) = Z.to_nat num_simulations) /\
    (forall p, (p < Z.to_nat num_simulations)%nat -> cell m 0 p = start_price) /\
    (forall t p, (S t < Z.to_nat forecast_period)%nat ->
       (p < Z.to_nat num_simulations)%nat ->
       cell m (S t) p
       = fmul (cell m t p)
              (step_factor drift volatility st (Z.to_nat num_simulations) (S t) p)).
Proof.
  intros HT HN.
  destruct (run_monte_carlo_simulation_rows start_price drift volatility
              forecast_period num_simulations st HT HN)
    as (z & m & st' & Hz & Hzl & Hzc & Hrun & Hlen & Hrows).
  destruct (daily_returns_shape drift volatility z _ Hzc) as (Hdl & Hdc).
  assert (Hwidth : forall t, (t < Z.to_nat forecast_period)%nat ->
            length (get_row m t) = Z.to_nat num_simulations).
  { intros t Ht. rewrite Hrows by exact Ht.
    apply gbm_row_length; [apply repeat_length|].
    intros u Hu. unfold get_row. rewrite Forall_nth in Hdc. apply Hdc. lia. }
  exists m. rewrite Hrun. repeat split; trivial.
  - intros p Hp. unfold cell. rewrite (Hrows 0%nat) by lia. simpl.
    now rewrite nth_repeat_lt.
  - intros t p Ht Hp. unfold cell. rewrite (Hrows (S t)) by exact Ht.
    cbn [gbm_row]. rewrite <- (Hrows t) by lia.
    rewrite row_mul_nth.
    + f_equal. rewrite (daily_returns_cells drift volatility z _ (S t) p Hzc)
        by (trivial; lia).
      unfold step_factor. do 4 f_equal.
      apply (random_normal_cells _ _ _ _ _ _ _ Hz); trivial.
    + rewrite Hwidth; lia.
    + unfold get_row. rewrite Forall_nth in Hdc. rewrite Hdc; lia.
Qed.

Lemma Rsum_app (l l' : list R) : Rsum (l ++ l') = (Rsum l + Rsum l')%R.
Proof.
  unfold Rsum. induction l as [|x l IH]; simpl; [ring | rewrite IH; ring].
Qed.

Lemma draw_sum_S (st : RandomState) (cols t p : nat) :
  draw_sum st cols (S t) p = (draw_sum st cols t p + draw st cols (S t) p)%R.
Proof.
  unfold draw_sum. rewrite seq_S, map_app, Rsum_app. simpl. ring.
Qed.

(** With numeric parameters the loop multiplies exponentials, so each cell
    is the start price times one exponential. *)
Lemma cells_closed_form (m : DataFrame) (s d v : R) (st : RandomState)
    (rows cols : nat) :
  (forall p, (p < cols)%nat -> cell m 0 p = Fin s) ->
  (forall t p, (S t < rows)%nat -> (p < cols)%nat ->
     cell m (S t) p = fmul (cell m t p) (step_factor (Fin d) (Fin v) st cols (S t) p)) ->
  forall t p, (t < rows)%nat -> (p < cols)%nat ->
    cell m t p = Fin (s * exp (INR t * d + v * draw_sum st cols t p)).
Proof.
  intros H0 Hstep t p Ht Hp. induction t as [|t IH].
  - rewrite H0 by exact Hp. f_equal. unfold draw_sum. simpl.
    replace (0 * d + v * 0)%R with 0%R by ring. rewrite exp_0. ring.
  - rewrite Hstep by assumption. rewrite IH by lia.
    unfold step_factor, fexp, fadd, fmul, lift1, lift2. f_equal.
    rewrite draw_sum_S, S_INR, Rmult_assoc, <- exp_plus. do 2 f_equal. ring.
Qed.

Lemma frame_ext (m1 m2 : DataFrame) (rows cols : nat) :
  length m1 = rows -> length m2 = rows ->
  (forall t, (t < rows)%nat -> length (get_row m1 t) = cols) ->
  (forall t, (t < rows)%nat -> length (get_row m2 t) = cols) ->
  (forall t p, (t < rows)%nat -> (p < cols)%nat -> cell m1 t p = cell m2 t p) ->
  m1 = m2.
Proof.
  intros L1 L2 W1 W2 Hc.
  apply (nth_ext m1 m2 [] []); [congruence|].
  intros t Ht. rewrite L1 in Ht. fold (get_row m1 t). fold (get_row m2 t).
  apply (nth_ext _ _ NaN NaN); [rewrite W1, W2; trivial|].
  intros p Hp. rewrite W1 in Hp by exact Ht. now apply Hc.
Qed.

(** ** More on the simulator: what a run does with its draws *)

(** X1.  The loop is the recurrence of geometric Brownian motion: in a run
    with at least one step and a non-negative number of paths, every path
    starts at the start price and its price at step [t + 1] is its price at
    step [t] times [exp(drift + volatility * z)], where [z] is the draw of
    row [t + 1] in the column of the path. *)
Theorem simulation_recurrence
    (start_price drift volatility : pyfloat)
    (forecast_period num_simulations : Z) (st : RandomState) :
  (1 <= forecast_period)%Z -> (0 <= num_simulations)%Z ->
  exists m,
    fst (run_monte_carlo_simulation start_price drift volatility
           forecast_period num_simulations st) = inr m /\
    (forall p, (p < Z.to_nat num_simulations)%nat -> cell m 0 p = start_price) /\
    (forall t p, (S t < Z.to_nat forecast_period)%nat ->
       (p < Z.to_nat num_simulations)%nat ->
       cell m (S t) p
       = fmul (cell m t p)
              (fexp (fadd drift
                      (fmul volatility
                         (Fin (stream st (cursor st + S t * Z.to_nat num_simulations + p))))))).
Proof.
  intros HT HN.
  destruct (run_monte_carlo_simulation_cells start_price drift volatility
              forecast_period num_simulations st HT HN)
    as (m & Hm & _ & _ & H0 & Hstep).
  exists m. repeat split; trivial.
Qed.

Lemma simulation_recurrence_witness :
  (1 <= 3)%Z /\ (0 <= 2)%Z /\
  exists m,
    fst (run_monte_carlo_simulation (Fin 100%R) (Fin 0%R) (Fin 1%R) 3 2
           (mkRandomState INR 0)) = inr m /\
    (forall p, (p < Z.to_nat 2)%nat -> cell m 0 p = Fin 100%R) /\
    (forall t p, (S t < Z.to_nat 3)%nat -> (p < Z.to_nat 2)%nat ->
       cell m (S t) p
       = fmul (cell m t p)
              (fexp (fadd (Fin 0%R)
                      (fmul (Fin 1%R)
                         (Fin (stream (mkRandomState INR 0)
                                 (cursor (mkRandomState INR 0) + S t * Z.to_nat 2 + p))))))).
Proof.
  assert (H1 : (1 <= 3)%Z) by lia.
  assert (H2 : (0 <= 2)%Z) by lia.
  split; [exact H1|]. split; [exact H2|].
  exact (simulation_recurrence (Fin 100%R) (Fin 0%R) (Fin 1%R) 3 2
           (mkRandomState INR 0) H1 H2).
Defined.

(** X2.  With a numeric start price, drift and volatility, the price of
    path [p] at step [t] is [s * exp(t * d + v * (z_1 + ... + z_t))], where
    [z_u] is the draw of row [u] in the column of the path: the logarithm of
    the price is a random walk with drift. *)
Theorem simulation_closed_form
    (s d v : R) (forecast_period num_simulations : Z) (st : RandomState)
    (t p : nat) :
  (t < Z.to_nat forecast_period)%nat ->
  (p < Z.to_nat num_simulations)%nat ->
  exists m,
    fst (run_monte_carlo_simulation (Fin s) (Fin d) (Fin v)
           forecast_period num_simulations st) = inr m /\
    cell m t p
    = Fin (s * exp (INR t * d
                    + v * Rsum (map (fun u =>
                                       stream st
                                         (cursor st + u * Z.to_nat num_simulations + p))
                                    (seq 1 t)))).
Proof.
  intros Ht Hp.
  destruct (run_monte_carlo_simulation_cells (Fin s) (Fin d) (Fin v)
              forecast_period num_simulations st)
    as (m & Hm & _ & _ & H0 & Hstep); [lia | lia |].
  exists m. split; [exact Hm|].
  apply (cells_closed_form m s d v st (Z.to_nat forecast_period)
           (Z.to_nat num_simulations)); trivial.
Qed.

Lemma simulation_closed_form_witness :
  (2 < Z.to_nat 3)%nat /\ (1 < Z.to_nat 2)%nat /\
  exists m,
    fst (run_monte_carlo_simulation (Fin 100%R) (Fin 0%R) (Fin 1%R) 3 2
           (mkRandomState INR 0)) = inr m /\
    cell m 2 1
    = Fin (100 * exp (INR 2 * 0
                      + 1 * Rsum (map (fun u =>
                                         stream (mkRandomState INR 0)
                                           (cursor (mkRandomState INR 0)
                                            + u * Z.to_nat 2 + 1))
                                      (seq 1 2)))).
Proof.
  assert (H1 : (2 < Z.to_nat 3)%nat) by (simpl; lia).
  assert (H2 : (1 < Z.to_nat 2)%nat) by (simpl; lia).
  split; [exact H1|]. split; [exact H2|].
  exact (simulation_closed_form 100 0 1 3 2 (mkRandomState INR 0) 2 1 H1 H2).
Defined.

(** X3.  With a start price above zero and a numeric drift and volatility
    every price of the frame is a number above zero. *)
Theorem simulation_prices_positive
    (s d v : R) (forecast_period num_simulations : Z) (st : RandomState) :
  (0 < s)%R -> (1 <= forecast_period)%Z -> (0 <= num_simulations)%Z ->
  exists m,
    fst (run_monte_carlo_simulation (Fin s) (Fin d) (Fin v)
           forecast_period num_simulations st) = inr m /\
    Forall (Forall positive_price) m.
Proof.
  intros Hs HT HN.
  destruct (run_monte_carlo_simulation_cells (Fin s) (Fin d) (Fin v)
              forecast_period num_simulations st HT HN)
    as (m & Hm & Hlen & Hwidth & H0 & Hstep).
  exists m. split; [exact Hm|].
  apply Forall_nth. intros t row Ht.
  rewrite nth_indep with (d' := []) by exact Ht. fold (get_row m t).
  rewrite Hlen in Ht.
  apply Forall_nth. intros p x Hp.
  rewrite nth_indep with (d' := NaN) by exact Hp. fold (cell m t p).
  rewrite Hwidth in Hp by exact Ht.
  rewrite (cells_closed_form m s d v st _ _ H0 Hstep t p Ht Hp).
  eexists. split; [reflexivity|].
  apply Rmult_lt_0_compat; [exact Hs | apply exp_pos].
Qed.

Lemma simulation_prices_positive_witness :
  (0 < 100)%R /\ (1 <= 3)%Z /\ (0 <= 2)%Z /\
  exists m,
    fst (run_monte_carlo_simulation (Fin 100%R) (Fin 0%R) (Fin 1%R) 3 2
           (mkRandomState INR 0)) = inr m /\
    Forall (Forall positive_price) m.
Proof.
  assert (H1 : (0 < 100)%R) by lra.
  assert (H2 : (1 <= 3)%Z) by lia.
  assert (H3 : (0 <= 2)%Z) by lia.
  split; [exact H1|]. split; [exact H2|]. split; [exact H3|].
  exact (simulation_prices_positive 100 0 1 3 2 (mkRandomState INR 0) H1 H2 H3).
Defined.

Lemma step_factor_agree (drift volatility : pyfloat) (st1 st2 : RandomState)
    (cols t p : nat) :
  cursor st1 = cursor st2 ->
  stream st1 (cursor st1 + t * cols + p) = stream st2 (cursor st1 + t * cols + p) ->
  step_factor drift volatility st1 cols t p = step_factor drift volatility st2 cols t p.
Proof.
  intros Hc Hs. unfold step_factor, draw. now rewrite <- Hc, Hs.
Qed.

(** X4.  A run takes [forecast_period * num_simulations] draws from the
    random source, but the [num_simulations] draws of row 0 never reach the
    frame: two runs whose streams agree on the draws of rows 1 and later
    return the same frame, whatever the first row of draws was. *)
Theorem first_draws_discarded
    (start_price drift volatility : pyfloat)
    (forecast_period num_simulations : Z) (st1 st2 : RandomState) :
  (1 <= forecast_period)%Z -> (0 <= num_simulations)%Z ->
  cursor st1 = cursor st2 ->
  (forall k,
     (cursor st1 + Z.to_nat num_simulations <= k
      < cursor st1 + Z.to_nat forecast_period * Z.to_nat num_simulations)%nat ->
     stream st1 k = stream st2 k) ->
  fst (run_monte_carlo_simulation start_price drift volatility
         forecast_period num_simulations st1)
  = fst (run_monte_carlo_simulation start_price drift volatility
           forecast_period num_simulations st2)
  /\ cursor (snd (run_monte_carlo_simulation start_price drift volatility
                    forecast_period num_simulations st1))
     = (cursor st1 + Z.to_nat forecast_period * Z.to_nat num_simulations)%nat.
Proof.
  intros HT HN Hc Hs.
  destruct (run_monte_carlo_simulation_cells start_price drift volatility
              forecast_period num_simulations st1 HT HN)
    as (m1 & Hm1 & L1 & W1 & Z1 & S1).
  destruct (run_monte_carlo_simulation_cells start_price drift volatility
              forecast_period num_simulations st2 HT HN)
    as (m2 & Hm2 & L2 & W2 & Z2 & S2).
  split.
  - rewrite Hm1, Hm2. f_equal.
    apply (frame_ext m1 m2 (Z.to_nat forecast_period) (Z.to_nat num_simulations));
      trivial.
    intros t p Ht Hp. induction t as [|t IH].
    + now rewrite Z1, Z2.
    + rewrite S1, S2 by assumption. rewrite IH by lia. f_equal.
      apply step_factor_agree; [exact Hc|]. apply Hs. nia.
  - destruct (run_monte_carlo_simulation_rows start_price drift volatility
                forecast_period num_simulations st1 HT HN)
      as (z & m & st' & Hz & _ & _ & Hrun & _).
    rewrite Hrun. simpl snd.
    destruct (random_normal_ok forecast_period num_simulations st1)
      as (z' & Hz' & _); [lia | lia |].
    rewrite Hz in Hz'. injection Hz' as _ ->. reflexivity.
Qed.

Lemma first_draws_discarded_witness :
  fst (run_monte_carlo_simulation (Fin 100%R) (Fin 0%R) (Fin 1%R) 2 1
         (mkRandomState (fun k => INR k) 0))
  = fst (run_monte_carlo_simulation (Fin 100%R) (Fin 0%R) (Fin 1%R) 2 1
           (mkRandomState (fun k => if (k =? 0)%nat then 7%R else INR k) 0))
  /\ cursor (snd (run_monte_carlo_simulation (Fin 100%R) (Fin 0%R) (Fin 1%R) 2 1
                    (mkRandomState (fun k => INR k) 0)))
     = (cursor (mkRandomState (fun k => INR k) 0) + Z.to_nat 2 * Z.to_nat 1)%nat.
Proof.
  apply first_draws_discarded; [lia | lia | reflexivity |].
  simpl. intros k Hk.
  destruct (k =? 0)%nat eqn:E; [|reflexivity].
  apply Nat.eqb_eq in E. lia.
Defined.

(** X5.  A drift or a volatility that is [NaN] raises nothing: the run
    returns a frame whose row 0 holds the start price and whose later rows
    hold [NaN] in every column. *)
Theorem nan_parameters_give_nan_rows
    (start_price drift volatility : pyfloat)
    (forecast_period num_simulations : Z) (st : RandomState) :
  drift = NaN \/ volatility = NaN ->
  (1 <= forecast_period)%Z -> (0 <= num_simulations)%Z ->
  exists m,
    fst (run_monte_carlo_simulation start_price drift volatility
           forecast_period num_simulations st) = inr m /\
    get_row m 0 = repeat start_price (Z.to_nat num_simulations) /\
    forall t, (1 <= t < Z.to_nat forecast_period)%nat ->
      get_row m t = repeat NaN (Z.to_nat num_simulations).
Proof.
  intros Hnan HT HN.
  destruct (run_monte_carlo_simulation_cells start_price drift volatility
              forecast_period num_simulations st HT HN)
    as (m & Hm & Hlen & Hwidth & H0 & Hstep).
  assert (Hfac : forall t p, step_factor drift volatility st
                               (Z.to_nat num_simulations) t p = NaN).
  { intros t p. unfold step_factor.
    destruct Hnan as [-> | ->]; [reflexivity | destruct drift; reflexivity]. }
  exists m. split; [exact Hm|]. split.
  - apply (nth_ext _ _ NaN NaN); [rewrite Hwidth, repeat_length; lia|].
    intros p Hp. rewrite Hwidth in Hp by lia. fold (cell m 0 p).
    rewrite H0 by exact Hp. now rewrite nth_repeat_lt.
  - intros t Ht.
    apply (nth_ext _ _ NaN NaN); [rewrite Hwidth, repeat_length; lia|].
    intros p Hp. rewrite Hwidth in Hp by lia. fold (cell m t p).
    destruct t as [|t]; [lia|].
    rewrite Hstep by (trivial; lia). rewrite Hfac.
    rewrite nth_repeat_lt by exact Hp.
    destruct (cell m t p); reflexivity.
Qed.

Lemma nan_parameters_give_nan_rows_witness :
  (Fin 0%R = NaN \/ NaN = NaN) /\ (1 <= 3)%Z /\ (0 <= 2)%Z /\
  exists m,
    fst (run_monte_carlo_simulation (Fin 100%R) (Fin 0%R) NaN 3 2
           (constant_state 0%R)) = inr m /\
    get_row m 0 = repeat (Fin 100%R) (Z.to_nat 2) /\
    forall t, (1 <= t < Z.to_nat 3)%nat -> get_row m t = repeat NaN (Z.to_nat 2).
Proof.
  assert (H1 : Fin 0%R = NaN \/ NaN = NaN) by (right; reflexivity).
  assert (H2 : (1 <= 3)%Z) by lia.
  assert (H3 : (0 <= 2)%Z) by lia.
  split; [exact H1|]. split; [exact H2|]. split; [exact H3|].
  exact (nan_parameters_give_nan_rows (Fin 100%R) (Fin 0%R) NaN 3 2
           (constant_state 0%R) H1 H2 H3).
Defined.

(** ** More on the analyzer: the observations of a series *)

Lemma dropna_returns_of (final_prices : Series) (s : R) :
  s <> 0%R ->
  dropna (returns_of final_prices (Fin s))
  = map (fun p => p / s - 1)%R (dropna final_prices).
Proof.
  intros Hs. unfold returns_of.
  induction final_prices as [|[x|] xs IH]; cbn [map dropna].
  - reflexivity.
  - rewrite fdiv_Fin by exact Hs. cbn [fsub lift2 dropna map]. now rewrite IH.
  - cbn [fdiv fsub lift2 dropna]. exact IH.
Qed.

(** Filtering behind a map. *)
Lemma filter_length_map {A B : Type} (f : A -> B) (g : B -> bool) (l : list A) :
  length (filter g (map f l)) = length (filter (fun x => g (f x)) l).
Proof.
  induction l as [|x l IH]; simpl; [reflexivity|].
  destruct (g (f x)); simpl; now rewrite IH.
Qed.

Lemma series_quantile_observed (xs : Series) (q : Q) :
  dropna xs <> [] -> series_quantile xs q = Fin (np_quantile q (dropna xs)).
Proof.
  intros Hne. unfold series_quantile.
  destruct (dropna xs); [congruence | reflexivity].
Qed.

Lemma series_quantile_unobserved (xs : Series) (q : Q) :
  dropna xs = [] -> series_quantile xs q = NaN.
Proof. intros H. unfold series_quantile. now rewrite H. Qed.

Lemma map_nonempty {A B : Type} (f : A -> B) (l : list A) :
  l <> [] -> map f l <> [].
Proof. destruct l; [congruence | discriminate]. Qed.

(** ** More on the analyzer: threshold probabilities *)

Lemma count_true_map {A : Type} (f : A -> bool) (l : list A) :
  count_true (map f l) = length (filter f l).
Proof.
  unfold count_true. rewrite filter_length_map. reflexivity.
Qed.

Lemma mask_mean_map {A : Type} (f : A -> bool) (l : list A) :
  l <> [] ->
  mask_mean (map f l) = Fin (INR (length (filter f l)) / INR (length l)).
Proof.
  intros Hne. rewrite mask_mean_nonempty by now apply map_nonempty.
  now rewrite count_true_map, length_map.
Qed.

Lemma filter_length_disjoint {A : Type} (f g : A -> bool) (l : list A) :
  (forall x, f x = true -> g x = false) ->
  (length (filter f l) + length (filter g l) <= length l)%nat.
Proof.
  intros H. induction l as [|x l IH]; simpl; [lia|].
  destruct (f x) eqn:Hf.
  - rewrite (H x Hf). simpl. lia.
  - destruct (g x); simpl; lia.
Qed.

Lemma fraction_le (a b n : nat) :
  (0 < n)%nat -> (a <= b)%nat -> (INR a / INR n <= INR b / INR n)%R.
Proof.
  intros Hn Hab. apply le_INR in Hab. apply lt_0_INR in Hn.
  unfold Rdiv. apply Rmult_le_compat_r; [|exact Hab].
  left. now apply Rinv_0_lt_compat.
Qed.

(** X9.  For a non-empty final-price vector and a start price above zero,
    the four threshold probabilities are numbers, none is negative, a
    higher threshold is never more likely,
    [prob_increase_30 <= prob_increase_20 <= prob_increase_10], and a loss
    and a gain above 10% exclude each other,
    [prob_loss + prob_increase_10 <= 1]. *)
Theorem threshold_probabilities
    (rows : DataFrame) (final_prices : Series) (s : R) :
  final_prices <> [] -> (0 < s)%R ->
  exists a pl p10 p20 p30,
    analyze_simulation_results (frame_ending rows final_prices) (Fin s) = inr a /\
    prob_loss (risk_metrics a) = Fin pl /\
    prob_increase_10 (risk_metrics a) = Fin p10 /\
    prob_increase_20 (risk_metrics a) = Fin p20 /\
    prob_increase_30 (risk_metrics a) = Fin p30 /\
    (0 <= pl)%R /\ (0 <= p30)%R /\ (p30 <= p20)%R /\ (p20 <= p10)%R /\
    (pl + p10 <= 1)%R.
Proof.
  intros Hne Hs. rewrite analyze_frame.
  set (n := length final_prices).
  assert (Hn : (0 < n)%nat).
  { unfold n. destruct final_prices; [congruence | simpl; lia]. }
  assert (HnR : (0 < INR n)%R) by now apply lt_0_INR.
  do 5 eexists. split; [reflexivity|].
  cbn [risk_metrics analyze_final_prices prob_loss prob_increase_10
       prob_increase_20 prob_increase_30].
  rewrite !mask_mean_map by exact Hne. fold n.
  do 4 (split; [reflexivity|]).
  assert (Hfrac : forall k, (0 <= INR k / INR n)%R).
  { intros k. apply Rmult_le_pos; [apply pos_INR|].
    left. now apply Rinv_0_lt_compat. }
  split; [apply Hfrac|]. split; [apply Hfrac|].
  split; [|split].
  - apply fraction_le; [exact Hn|]. apply filter_length_impl.
    intros [x|] Hx; [|discriminate]. unfold fgtb, fltb, fmul, lift2 in *.
    apply Rlt_bool_true in Hx. apply Rlt_bool_true. lra.
  - apply fraction_le; [exact Hn|]. apply filter_length_impl.
    intros [x|] Hx; [|discriminate]. unfold fgtb, fltb, fmul, lift2 in *.
    apply Rlt_bool_true in Hx. apply Rlt_bool_true. lra.
  - assert (Hd : (length (filter (fun p => fltb p (Fin s)) final_prices)
                  + length (filter (fun p => fgtb p (fmul (Fin s) (Fin 1.1%R)))
                              final_prices) <= n)%nat).
    { apply filter_length_disjoint.
      intros [x|] Hx; [|discriminate]. unfold fgtb, fltb, fmul, lift2 in *.
      apply Rlt_bool_true in Hx. apply Rlt_bool_false. lra. }
    apply le_INR in Hd. rewrite plus_INR in Hd.
    apply Rmult_le_reg_r with (r := INR n); [exact HnR|].
    unfold Rdiv. rewrite Rmult_plus_distr_r, !Rmult_assoc, Rinv_l by lra. lra.
Qed.

Lemma threshold_probabilities_witness :
  [Fin 90%R; Fin 110%R] <> [] /\ (0 < 100)%R /\
  exists a pl p10 p20 p30,
    analyze_simulation_results
      (frame_ending [[Fin 100%R; Fin 100%R]] [Fin 90%R; Fin 110%R]) (Fin 100%R)
    = inr a /\
    prob_loss (risk_metrics a) = Fin pl /\
    prob_increase_10 (risk_metrics a) = Fin p10 /\
    prob_increase_20 (risk_metrics a) = Fin p20 /\
    prob_increase_30 (risk_metrics a) = Fin p30 /\
    (0 <= pl)%R /\ (0 <= p30)%R /\ (p30 <= p20)%R /\ (p20 <= p10)%R /\
    (pl + p10 <= 1)%R.
Proof.
  assert (H1 : [Fin 90%R; Fin 110%R] <> []) by discriminate.
  assert (H2 : (0 < 100)%R) by lra.
  split; [exact H1|]. split; [exact H2|].
  exact (threshold_probabilities [[Fin 100%R; Fin 100%R]] [Fin 90%R; Fin 110%R]
           100 H1 H2).
Defined.

Lemma dropna_repeat (c : R) (n : nat) : dropna (repeat (Fin c) n) = repeat c n.
Proof. induction n as [|n IH]; simpl; [reflexivity | now rewrite IH]. Qed.

Lemma repeat_nonempty {A : Type} (x : A) (n : nat) : (1 <= n)%nat -> repeat x n <> [].
Proof. destruct n; [lia | discriminate]. Qed.

Lemma series_quantile_repeat (c : R) (n : nat) (q : Q) :
  (1 <= n)%nat -> (0 <= q)%Q -> (q <= 1)%Q ->
  series_quantile (repeat (Fin c) n) q = Fin c.
Proof.
  intros Hn H0 H1.
  rewrite series_quantile_observed; rewrite dropna_repeat;
    [|now apply repeat_nonempty].
  f_equal. apply np_quantile_constant; trivial; [now apply repeat_nonempty|].
  intros v Hv. now apply repeat_spec in Hv.
Qed.

Lemma returns_of_repeat (c s : R) (n : nat) :
  s <> 0%R ->
  returns_of (repeat (Fin c) n) (Fin s) = repeat (Fin (c / s - 1)) n.
Proof.
  intros Hs. unfold returns_of.
  induction n as [|n IH]; cbn [repeat map]; [reflexivity|].
  rewrite IH, fdiv_Fin by exact Hs. reflexivity.
Qed.

(** ** More on the analyzer: invariance *)

Lemma dropna_perm (xs ys : Series) :
  Permutation xs ys -> Permutation (dropna xs) (dropna ys).
Proof.
  induction 1 as [| x l l' _ IH | x y l | l l' l'' _ IH1 _ IH2].
  - apply perm_nil.
  - destruct x; simpl; [now apply perm_skip | exact IH].
  - destruct x, y; simpl; try apply Permutation_refl. apply perm_swap.
  - eapply perm_trans; eassumption.
Qed.

Lemma sorted_perm_unique (l l' : list R) :
  StronglySorted Rle l -> StronglySorted Rle l' -> Permutation l l' -> l = l'.
Proof.
  intros Hl. revert l'. induction Hl as [|a l Hs IH Ha]; intros l' Hl' Hp.
  - apply Permutation_nil in Hp. now subst.
  - destruct Hl' as [|b l' Hs' Hb].
    + apply Permutation_sym, Permutation_nil in Hp. discriminate.
    + rewrite Forall_forall in Ha, Hb.
      assert (Hab : (a <= b)%R).
      { assert (Hin : In b (a :: l))
          by (eapply Permutation_in; [apply Permutation_sym, Hp | now left]).
        destruct Hin as [<- | Hin]; [lra | now apply Ha]. }
      assert (Hba : (b <= a)%R).
      { assert (Hin : In a (b :: l'))
          by (eapply Permutation_in; [exact Hp | now left]).
        destruct Hin as [<- | Hin]; [lra | now apply Hb]. }
      assert (a = b) by lra. subst b. f_equal.
      apply IH; [exact Hs'|]. now apply Permutation_cons_inv in Hp.
Qed.

Lemma np_sort_perm_eq (l l' : list R) :
  Permutation l l' -> np_sort l = np_sort l'.
Proof.
  intros Hp. apply sorted_perm_unique; try apply np_sort_sorted.
  eapply perm_trans; [apply np_sort_perm|].
  eapply perm_trans; [exact Hp | apply Permutation_sym, np_sort_perm].
Qed.

Lemma np_quantile_perm (q : Q) (l l' : list R) :
  Permutation l l' -> np_quantile q l = np_quantile q l'.
Proof. intros Hp. unfold np_quantile. now rewrite (np_sort_perm_eq l l' Hp). Qed.

Lemma perm_nonempty {A : Type} (l l' : list A) :
  Permutation l l' -> l <> [] -> l' <> [].
Proof.
  intros Hp Hne ->. apply Hne. now apply Permutation_nil, Permutation_sym.
Qed.

Lemma series_quantile_perm (xs ys : Series) (q : Q) :
  Permutation xs ys -> series_quantile xs q = series_quantile ys q.
Proof.
  intros Hp. apply dropna_perm in Hp.
  destruct (dropna xs) as [|v vs] eqn:E.
  - apply Permutation_nil in Hp. now rewrite !series_quantile_unobserved.
  - rewrite <- E in Hp.
    assert (Hx : dropna xs <> []) by (rewrite E; discriminate).
    assert (Hy := perm_nonempty _ _ Hp Hx).
    rewrite !series_quantile_observed by assumption.
    now rewrite (np_quantile_perm q _ _ Hp).
Qed.

Lemma mask_mean_perm {A : Type} (f : A -> bool) (l l' : list A) :
  Permutation l l' -> mask_mean (map f l) = mask_mean (map f l').
Proof.
  intros Hp. destruct l as [|x l].
  - apply Permutation_nil in Hp. now subst.
  - assert (Hl : x :: l <> []) by discriminate.
    assert (Hl' := perm_nonempty _ _ Hp Hl).
    rewrite !mask_mean_map by assumption.
    now rewrite (filter_length_perm f _ _ Hp), (Permutation_length Hp).
Qed.

(** X13.  The rank-based and the counting results depend on the final
    prices as a multiset only: two frames whose last rows are
    rearrangements of each other, whatever their earlier rows, get the same
    four percentiles, the same median, the same [VaR_95] and [VaR_99] and
    the same four threshold probabilities.  The entries computed from sums
    (mean, CVaR, expected return, standard deviation) are not part of the
    statement. *)
Theorem analysis_ignores_path_order
    (rows rows' : DataFrame) (final_prices final_prices' : Series)
    (start_price : pyfloat) :
  Permutation final_prices final_prices' ->
  exists a a',
    analyze_simulation_results (frame_ending rows final_prices) start_price = inr a /\
    analyze_simulation_results (frame_ending rows' final_prices') start_price = inr a' /\
    percentile_5th (price_predictions a) = percentile_5th (price_predictions a') /\
    percentile_25th (price_predictions a) = percentile_25th (price_predictions a') /\
    median_predicted_price (price_predictions a)
    = median_predicted_price (price_predictions a') /\
    percentile_75th (price_predictions a) = percentile_75th (price_predictions a') /\
    percentile_95th (price_predictions a) = percentile_95th (price_predictions a') /\
    VaR_95 (risk_metrics a) = VaR_95 (risk_metrics a') /\
    VaR_99 (risk_metrics a) = VaR_99 (risk_metrics a') /\
    prob_loss (risk_metrics a) = prob_loss (risk_metrics a') /\
    prob_increase_10 (risk_metrics a) = prob_increase_10 (risk_metrics a') /\
    prob_increase_20 (risk_metrics a) = prob_increase_20 (risk_metrics a') /\
    prob_increase_30 (risk_metrics a) = prob_increase_30 (risk_metrics a').
Proof.
  intros Hp. rewrite !analyze_frame. do 2 eexists.
  split; [reflexivity|]. split; [reflexivity|].
  assert (Hr : Permutation (returns_of final_prices start_price)
                 (returns_of final_prices' start_price))
    by (unfold returns_of; now apply Permutation_map).
  cbn [price_predictions risk_metrics analyze_final_prices percentile_5th
       percentile_25th median_predicted_price percentile_75th percentile_95th
       VaR_95 VaR_99 prob_loss prob_increase_10 prob_increase_20 prob_increase_30].
  rewrite !series_median_quantile.
  rewrite !(series_quantile_perm final_prices final_prices') by exact Hp.
  rewrite !(mask_mean_perm _ final_prices final_prices') by exact Hp.
  rewrite !(series_quantile_perm _ _ _ Hr).
  repeat split.
Qed.

Lemma analysis_ignores_path_order_witness :
  exists a a',
    analyze_simulation_results
      (frame_ending [[Fin 100%R; Fin 100%R]] [Fin 90%R; Fin 110%R]) (Fin 100%R)
    = inr a /\
    analyze_simulation_results
      (frame_ending [] [Fin 110%R; Fin 90%R]) (Fin 100%R) = inr a' /\
    percentile_5th (price_predictions a) = percentile_5th (price_predictions a') /\
    percentile_25th (price_predictions a) = percentile_25th (price_predictions a') /\
    median_predicted_price (price_predictions a)
    = median_predicted_price (price_predictions a') /\
    percentile_75th (price_predictions a) = percentile_75th (price_predictions a') /\
    percentile_95th (price_predictions a) = percentile_95th (price_predictions a') /\
    VaR_95 (risk_metrics a) = VaR_95 (risk_metrics a') /\
    VaR_99 (risk_metrics a) = VaR_99 (risk_metrics a') /\
    prob_loss (risk_metrics a) = prob_loss (risk_metrics a') /\
    prob_increase_10 (risk_metrics a) = prob_increase_10 (risk_metrics a') /\
    prob_increase_20 (risk_metrics a) = prob_increase_20 (risk_metrics a') /\
    prob_increase_30 (risk_metrics a) = prob_increase_30 (risk_metrics a').
Proof.
  apply analysis_ignores_path_order. apply perm_swap.
Defined.

(** ** Simulation followed by analysis *)

Lemma analyze_last_row (m : DataFrame) (start_price : pyfloat) :
  m <> [] ->
  analyze_simulation_results m start_price
  = inr (analyze_final_prices (get_row m (length m - 1)) start_price).
Proof.
  intros Hne. destruct (exists_last Hne) as (rows & final & ->).
  change (rows ++ [final]) with (frame_ending rows final).
  rewrite analyze_frame. do 2 f_equal.
  unfold get_row, frame_ending. rewrite length_app. simpl.
  rewrite app_nth2 by lia.
  replace (length rows + 1 - 1 - length rows)%nat with 0%nat by lia. reflexivity.
Qed.

Lemma np_sort_head_in (vs : list R) : vs <> [] -> In (nth 0 (np_sort vs) 0%R) vs.
Proof.
  intros Hne. eapply Permutation_in; [apply np_sort_perm|].
  apply nth_In. rewrite np_sort_length. destruct vs; [congruence | simpl; lia].
Qed.

Lemma np_sort_head_least (vs : list R) (x : R) :
  In x vs -> (nth 0 (np_sort vs) 0 <= x)%R.
Proof.
  intros Hin.
  assert (Hin' : In x (np_sort vs))
    by (eapply Permutation_in; [apply Permutation_sym, np_sort_perm | exact Hin]).
  destruct (In_nth _ _ 0%R Hin') as (i & Hi & <-).
  apply sorted_nth_le; [apply np_sort_sorted | lia | exact Hi].
Qed.

Lemma fpow_Fin (x : R) (n : nat) : fpow (Fin x) n = Fin (x ^ n).
Proof.
  induction n as [|n IH]; [reflexivity|]. cbn [fpow]. rewrite IH. reflexivity.
Qed.

Lemma zero_volatility_rows
    (start_price drift : pyfloat)
    (forecast_period num_simulations : Z) (st : RandomState) :
  (1 <= forecast_period)%Z -> (0 <= num_simulations)%Z ->
  exists m,
    fst (run_monte_carlo_simulation start_price drift (Fin 0%R)
           forecast_period num_simulations st) = inr m /\
    length m = Z.to_nat forecast_period /\
    forall t, (t < Z.to_nat forecast_period)%nat ->
      get_row m t
      = repeat (fmul start_price (fpow (fexp drift) t)) (Z.to_nat num_simulations).
Proof.
  intros HT HN.
  destruct (run_monte_carlo_simulation_rows start_price drift (Fin 0%R)
              forecast_period num_simulations st HT HN)
    as (z & m & st' & Hz & Hzl & Hzc & Hrun & Hlen & Hrows).
  exists m. rewrite Hrun. split; [reflexivity|]. split; [exact Hlen|].
  intros t Ht. rewrite Hrows by exact Ht.
  apply gbm_row_constant. intros u Hu.
  apply daily_returns_zero_volatility; [exact Hzc | lia].
Qed.

(** X16.  Simulation followed by analysis without volatility: with a
    numeric drift [d], a start price [s] that is a number other than zero,
    [T >= 1] steps and at least one path, every path ends at
    [s * exp(d)^(T-1)]; the analyzer reports that price as median and as
    5th, 25th, 75th and 95th percentile, and the return [exp(d)^(T-1) - 1]
    as [VaR_95] and [VaR_99]. *)
Theorem zero_volatility_analysis
    (s d : R) (forecast_period num_simulations : Z) (st : RandomState) :
  s <> 0%R -> (1 <= forecast_period)%Z -> (1 <= num_simulations)%Z ->
  exists m a,
    fst (run_monte_carlo_simulation (Fin s) (Fin d) (Fin 0%R)
           forecast_period num_simulations st) = inr m /\
    analyze_simulation_results m (Fin s) = inr a /\
    median_predicted_price (price_predictions a)
    = Fin (s * exp d ^ (Z.to_nat forecast_period - 1)) /\
    percentile_5th (price_predictions a)
    = Fin (s * exp d ^ (Z.to_nat forecast_period - 1)) /\
    percentile_25th (price_predictions a)
    = Fin (s * exp d ^ (Z.to_nat forecast_period - 1)) /\
    percentile_75th (price_predictions a)
    = Fin (s * exp d ^ (Z.to_nat forecast_period - 1)) /\
    percentile_95th (price_predictions a)
    = Fin (s * exp d ^ (Z.to_nat forecast_period - 1)) /\
    VaR_95 (risk_metrics a) = Fin (exp d ^ (Z.to_nat forecast_period - 1) - 1) /\
    VaR_99 (risk_metrics a) = Fin (exp d ^ (Z.to_nat forecast_period - 1) - 1).
Proof.
  intros Hs HT HN.
  destruct (zero_volatility_rows (Fin s) (Fin d) forecast_period num_simulations st)
    as (m & Hm & Hlen & Hrows); [lia | lia |].
  assert (Hne : m <> []) by (destruct m; [simpl in Hlen; lia | discriminate]).
  exists m, (analyze_final_prices (get_row m (length m - 1)) (Fin s)).
  split; [exact Hm|]. split; [now apply analyze_last_row|].
  rewrite Hrows by lia. rewrite Hlen.
  set (n := (Z.to_nat forecast_period - 1)%nat).
  set (paths := Z.to_nat num_simulations).
  assert (Hpaths : (1 <= paths)%nat) by (unfold paths; lia).
  change (fexp (Fin d)) with (Fin (exp d)). rewrite fpow_Fin.
  change (fmul (Fin s) (Fin (exp d ^ n))) with (Fin (s * exp d ^ n)).
  cbn [price_predictions risk_metrics analyze_final_prices median_predicted_price
       percentile_5th percentile_25th percentile_75th percentile_95th VaR_95 VaR_99].
  rewrite series_median_quantile.
  rewrite returns_of_repeat by exact Hs.
  rewrite !series_quantile_repeat by (trivial; discriminate).
  replace (s * exp d ^ n / s - 1)%R with (exp d ^ n - 1)%R by (field; exact Hs).
  repeat split.
Qed.

Lemma zero_volatility_analysis_witness :
  100%R <> 0%R /\ (1 <= 3)%Z /\ (1 <= 2)%Z /\
  exists m a,
    fst (run_monte_carlo_simulation (Fin 100%R) (Fin 0%R) (Fin 0%R) 3 2
           (constant_state 0%R)) = inr m /\
    analyze_simulation_results m (Fin 100%R) = inr a /\
    median_predicted_price (price_predictions a) = Fin (100 * exp 0 ^ (Z.to_nat 3 - 1)) /\
    percentile_5th (price_predictions a) = Fin (100 * exp 0 ^ (Z.to_nat 3 - 1)) /\
    percentile_25th (price_predictions a) = Fin (100 * exp 0 ^ (Z.to_nat 3 - 1)) /\
    percentile_75th (price_predictions a) = Fin (100 * exp 0 ^ (Z.to_nat 3 - 1)) /\
    percentile_95th (price_predictions a) = Fin (100 * exp 0 ^ (Z.to_nat 3 - 1)) /\
    VaR_95 (risk_metrics a) = Fin (exp 0 ^ (Z.to_nat 3 - 1) - 1) /\
    VaR_99 (risk_metrics a) = Fin (exp 0 ^ (Z.to_nat 3 - 1) - 1).
Proof.
  assert (H1 : 100%R <> 0%R) by lra.
  assert (H2 : (1 <= 3)%Z) by lia.
  assert (H3 : (1 <= 2)%Z) by lia.
  split; [exact H1|]. split; [exact H2|]. split; [exact H3|].
  exact (zero_volatility_analysis 100 0 3 2 (constant_state 0%R) H1 H2 H3).
Defined.

(** ** More on the analyzer: the range of the predictions *)

Lemma np_sort_last_in (vs : list R) :
  vs <> [] -> In (nth (length vs - 1) (np_sort vs) 0%R) vs.
Proof.
  intros Hne. eapply Permutation_in; [apply np_sort_perm|].
  apply nth_In. rewrite np_sort_length. destruct vs; [congruence | simpl; lia].
Qed.

Lemma np_sort_last_greatest (vs : list R) (x : R) :
  In x vs -> (x <= nth (length vs - 1) (np_sort vs) 0)%R.
Proof.
  intros Hin.
  assert (Hin' : In x (np_sort vs))
    by (eapply Permutation_in; [apply Permutation_sym, np_sort_perm | exact Hin]).
  destruct (In_nth _ _ 0%R Hin') as (i & Hi & <-).
  rewrite np_sort_length in Hi.
  apply sorted_nth_le; [apply np_sort_sorted | lia | rewrite np_sort_length; lia].
Qed.

Lemma np_quantile_upper_bound (q : Q) (vs : list R) :
  vs <> [] -> (0 <= q)%Q -> (q <= 1)%Q ->
  (np_quantile q vs <= nth (length vs - 1) (np_sort vs) 0)%R.
Proof.
  intros Hne H0 H1. rewrite <- (np_sort_length vs).
  unfold np_quantile. rewrite np_lerp_eq.
  assert (Hn : (1 <= length (np_sort vs))%nat).
  { rewrite np_sort_length. destruct vs; [congruence | simpl; lia]. }
  destruct (virtual_index_split (length (np_sort vs)) q Hn H0 H1)
    as (Hl & Hg & He).
  set (lo := Z.to_nat (Qfloor (virtual_index (length (np_sort vs)) q))) in *.
  set (g := Q2R _) in *.
  assert (Hs := np_sort_sorted vs).
  set (n := length (np_sort vs)) in *.
  assert (Ha : (nth lo (np_sort vs) 0 <= nth (Nat.min (lo + 1) (n - 1)) (np_sort vs) 0)%R)
    by (apply sorted_nth_le; trivial; lia).
  assert (Hb : (nth (Nat.min (lo + 1) (n - 1)) (np_sort vs) 0
                <= nth (n - 1) (np_sort vs) 0)%R)
    by (apply sorted_nth_le; trivial; lia).
  nra.
Qed.

(** X17.  When some final price is a number, the reported percentiles lie
    within the range of the final prices: there are a smallest and a
    largest numeric final price [lo] and [hi], and
    [lo <= percentile_5th] and [percentile_95th <= hi]. *)
Theorem predictions_within_price_range
    (rows : DataFrame) (final_prices : Series) (start_price : pyfloat) :
  (exists p, In (Fin p) final_prices) ->
  exists a lo hi,
    analyze_simulation_results (frame_ending rows final_prices) start_price = inr a /\
    In (Fin lo) final_prices /\ In (Fin hi) final_prices /\
    (forall x, In (Fin x) final_prices -> (lo <= x <= hi)%R) /\
    fle (Fin lo) (percentile_5th (price_predictions a)) /\
    fle (percentile_95th (price_predictions a)) (Fin hi).
Proof.
  intros (p & Hp). rewrite analyze_frame.
  assert (Hobs : dropna final_prices <> []).
  { intros Hnil. apply dropna_In in Hp. rewrite Hnil in Hp. exact Hp. }
  set (vs := dropna final_prices) in *.
  exists (analyze_final_prices final_prices start_price),
    (nth 0 (np_sort vs) 0%R), (nth (length vs - 1) (np_sort vs) 0%R).
  split; [reflexivity|].
  split; [apply dropna_In; now apply np_sort_head_in|].
  split; [apply dropna_In; now apply np_sort_last_in|].
  assert (Hrange : forall x, In x vs ->
            (nth 0 (np_sort vs) 0 <= x <= nth (length vs - 1) (np_sort vs) 0)%R).
  { intros x Hx. split; [now apply np_sort_head_least | now apply np_sort_last_greatest]. }
  split; [intros x Hx; apply Hrange; now apply dropna_In|].
  cbn [price_predictions analyze_final_prices percentile_5th percentile_95th].
  rewrite !series_quantile_observed by exact Hobs.
  fold vs. split; apply fle_Fin.
  - apply np_quantile_lower_bound; trivial; discriminate.
  - apply np_quantile_upper_bound; trivial; discriminate.
Qed.

Lemma predictions_within_price_range_witness :
  (exists p, In (Fin p) [Fin 90%R; Fin 110%R]) /\
  exists a lo hi,
    analyze_simulation_results
      (frame_ending [[Fin 100%R; Fin 100%R]] [Fin 90%R; Fin 110%R]) (Fin 100%R)
    = inr a /\
    In (Fin lo) [Fin 90%R; Fin 110%R] /\ In (Fin hi) [Fin 90%R; Fin 110%R] /\
    (forall x, In (Fin x) [Fin 90%R; Fin 110%R] -> (lo <= x <= hi)%R) /\
    fle (Fin lo) (percentile_5th (price_predictions a)) /\
    fle (percentile_95th (price_predictions a)) (Fin hi).
Proof.
  assert (H1 : exists p, In (Fin p) [Fin 90%R; Fin 110%R]).
  { exists 90%R. simpl. left. reflexivity. }
  split; [exact H1|].
  exact (predictions_within_price_range [[Fin 100%R; Fin 100%R]]
           [Fin 90%R; Fin 110%R] (Fin 100%R) H1).
Defined.

(** ** The series handed to the plots *)

Lemma frame_quantile_le (simulations : DataFrame) (q1 q2 : Q) :
  Forall (fun row => exists p, In (Fin p) row) simulations ->
  (0 <= q1)%Q -> (q1 <= q2)%Q -> (q2 <= 1)%Q ->
  Forall2 fle (frame_quantile simulations q1) (frame_quantile simulations q2).
Proof.
  intros Hrows H0 H12 H1. unfold frame_quantile.
  induction Hrows as [|row rest (p & Hp) _ IH]; simpl; constructor; [|exact IH].
  apply series_quantile_le; trivial.
  intros Hnil. apply dropna_In in Hp. rewrite Hnil in Hp. exact Hp.
Qed.

(** X18.  The fan chart has four bands, each with one lower and one upper
    edge value per step; when every step has at least one numeric price,
    the lower edge of a band is at most its upper edge at every step, and
    each band starts where the band below it ends. *)
Theorem fan_chart_bands_ordered (simulations : DataFrame) :
  Forall (fun row => exists p, In (Fin p) row) simulations ->
  length (fan_chart_bands simulations) = 4%nat /\
  Forall (fun band =>
            length (fst band) = length simulations /\
            length (snd band) = length simulations /\
            Forall2 fle (fst band) (snd band))
         (fan_chart_bands simulations) /\
  forall i, (i < 3)%nat ->
    snd (nth i (fan_chart_bands simulations) ([], []))
    = fst (nth (S i) (fan_chart_bands simulations) ([], [])).
Proof.
  intros Hrows. split; [reflexivity|]. split.
  - unfold fan_chart_bands. cbn [fan_chart_percentiles length Nat.sub seq map nth Nat.add].
    repeat constructor; cbn [fst snd]; unfold frame_quantile;
      try (now rewrite length_map);
      apply frame_quantile_le; trivial; unfold Qle; simpl; lia.
  - intros i Hi. unfold fan_chart_bands.
    destruct i as [|[|[|i]]]; [reflexivity | reflexivity | reflexivity | lia].
Qed.

Lemma fan_chart_bands_ordered_witness :
  Forall (fun row => exists p, In (Fin p) row)
         [[Fin 100%R; Fin 100%R]; [Fin 90%R; Fin 110%R]] /\
  length (fan_chart_bands [[Fin 100%R; Fin 100%R]; [Fin 90%R; Fin 110%R]]) = 4%nat /\
  Forall (fun band =>
            length (fst band)
            = length [[Fin 100%R; Fin 100%R]; [Fin 90%R; Fin 110%R]] /\
            length (snd band)
            = length [[Fin 100%R; Fin 100%R]; [Fin 90%R; Fin 110%R]] /\
            Forall2 fle (fst band) (snd band))
         (fan_chart_bands [[Fin 100%R; Fin 100%R]; [Fin 90%R; Fin 110%R]]) /\
  forall i, (i < 3)%nat ->
    snd (nth i (fan_chart_bands [[Fin 100%R; Fin 100%R]; [Fin 90%R; Fin 110%R]])
           ([], []))
    = fst (nth (S i) (fan_chart_bands [[Fin 100%R; Fin 100%R]; [Fin 90%R; Fin 110%R]])
             ([], [])).
Proof.
  assert (H1 : Forall (fun row => exists p, In (Fin p) row)
                 [[Fin 100%R; Fin 100%R]; [Fin 90%R; Fin 110%R]]).
  { repeat constructor; eexists; left; reflexivity. }
  split; [exact H1|].
  exact (fan_chart_bands_ordered [[Fin 100%R; Fin 100%R]; [Fin 90%R; Fin 110%R]] H1).
Defined.

(** X19.  The returns plotted by [plot_pdf_and_cdf] are measured against
    the final price of the first path, not against the start price: for
    numeric final prices [f :: ps] with [f] and the start price [s] other
    than zero, the plotted return of a path is [(1 + r) / (1 + r0) - 1],
    where [r] is the return of the path in the analyzer and [r0] that of the
    first path; the first plotted return is 0. *)
Theorem pdf_cdf_returns_baseline
    (rows : DataFrame) (f s : R) (ps : list R) :
  f <> 0%R -> s <> 0%R ->
  exists a,
    analyze_simulation_results (frame_ending rows (map Fin (f :: ps))) (Fin s)
    = inr a /\
    pdf_cdf_returns (final_prices a)
    = inr (map (fun r => Fin ((1 + r) / (1 + (f / s - 1)) - 1))
               (map (fun p => p / s - 1)%R (f :: ps))) /\
    forall rs, pdf_cdf_returns (final_prices a) = inr rs -> nth 0 rs NaN = Fin 0%R.
Proof.
  intros Hf Hs. rewrite analyze_frame. eexists. split; [reflexivity|].
  cbn [final_prices analyze_final_prices].
  assert (E : pdf_cdf_returns (map Fin (f :: ps))
              = inr (map Fin (map (fun p => p / f - 1)%R (f :: ps)))).
  { cbn [map pdf_cdf_returns].
    change (Fin f :: map Fin ps) with (map Fin (f :: ps)).
    now rewrite returns_of_map_Fin. }
  rewrite E. split.
  - f_equal. rewrite !map_map. apply map_ext. intros p. f_equal. field.
    split; [exact Hs|]. replace (s + (f - s))%R with f by ring. exact Hf.
  - intros rs Hrs. injection Hrs as <-. cbn [map nth]. f_equal. field. exact Hf.
Qed.

Lemma pdf_cdf_returns_baseline_witness :
  90%R <> 0%R /\ 100%R <> 0%R /\
  exists a,
    analyze_simulation_results
      (frame_ending [[Fin 100%R; Fin 100%R]] (map Fin [90%R; 110%R])) (Fin 100%R)
    = inr a /\
    pdf_cdf_returns (final_prices a)
    = inr (map (fun r => Fin ((1 + r) / (1 + (90 / 100 - 1)) - 1))
               (map (fun p => p / 100 - 1)%R [90%R; 110%R])) /\
    forall rs, pdf_cdf_returns (final_prices a) = inr rs -> nth 0 rs NaN = Fin 0%R.
Proof.
  assert (H1 : 90%R <> 0%R) by lra.
  assert (H2 : 100%R <> 0%R) by lra.
  split; [exact H1|]. split; [exact H2|].
  exact (pdf_cdf_returns_baseline [[Fin 100%R; Fin 100%R]] 90 100 [110%R] H1 H2).
Defined.

(** ** More on the analyzer: coherence of the risk metrics *)

(** X23.  A negative value at risk comes with a loss: with a start price
    above zero, if [VaR_95] is a number below zero then some path ends
    below the start price, and [prob_loss] is at least one path in
    [n], where [n] is the number of paths. *)
Theorem negative_var_means_losses
    (rows : DataFrame) (final_prices : Series) (s v : R) :
  (0 < s)%R ->
  VaR_95 (risk_metrics (analyze_final_prices final_prices (Fin s))) = Fin v ->
  (v < 0)%R ->
  exists a pl,
    analyze_simulation_results (frame_ending rows final_prices) (Fin s) = inr a /\
    prob_loss (risk_metrics a) = Fin pl /\
    (1 / INR (length final_prices) <= pl)%R /\ (0 < pl)%R.
Proof.
  intros Hs Hv Hneg. rewrite analyze_frame.
  cbn [risk_metrics analyze_final_prices VaR_95] in Hv.
  assert (Hobs : dropna (returns_of final_prices (Fin s)) <> []).
  { intros E. rewrite series_quantile_unobserved in Hv by exact E. discriminate. }
  rewrite series_quantile_observed in Hv by exact Hobs. injection Hv as Hv.
  rewrite dropna_returns_of in * by lra.
  set (rs := map (fun p => p / s - 1)%R (dropna final_prices)) in *.
  assert (Hlow := np_quantile_lower_bound 0.05 rs Hobs).
  assert (Hmin := np_sort_head_in rs Hobs).
  set (mn := nth 0 (np_sort rs) 0%R) in *.
  apply in_map_iff in Hmin. destruct Hmin as (p & Hp & Hin).
  assert (Hps : (p < s)%R).
  { assert (mn <= v)%R by (rewrite <- Hv; apply Hlow; discriminate).
    assert (Hq : (p / s < 1)%R) by lra.
    apply Rmult_lt_compat_r with (r := s) in Hq; [|exact Hs].
    unfold Rdiv in Hq. rewrite Rmult_assoc, Rinv_l in Hq by lra. lra. }
  apply dropna_In in Hin.
  assert (Hne : final_prices <> []) by (intros E; rewrite E in Hin; exact Hin).
  assert (Hcount : (1 <= length (filter (fun x => fltb x (Fin s)) final_prices))%nat).
  { assert (Hsel : In (Fin p) (filter (fun x => fltb x (Fin s)) final_prices)).
    { apply filter_In. split; [exact Hin|]. simpl. now apply Rlt_bool_true. }
    destruct (filter (fun x => fltb x (Fin s)) final_prices); [destruct Hsel|].
    simpl. lia. }
  assert (Hn : (0 < length final_prices)%nat)
    by (destruct final_prices; [congruence | simpl; lia]).
  do 2 eexists. split; [reflexivity|].
  cbn [risk_metrics analyze_final_prices prob_loss].
  rewrite mask_mean_map by exact Hne. split; [reflexivity|].
  assert (Hfr := fraction_le 1 _ (length final_prices) Hn Hcount).
  change (INR 1) with 1%R in Hfr. split; [exact Hfr|].
  assert (0 < 1 / INR (length final_prices))%R.
  { apply Rdiv_lt_0_compat; [lra | now apply lt_0_INR]. }
  lra.
Qed.

Lemma negative_var_means_losses_witness :
  exists a pl,
    analyze_simulation_results (frame_ending [] [Fin 50%R]) (Fin 100%R) = inr a /\
    prob_loss (risk_metrics a) = Fin pl /\
    (1 / INR (length [Fin 50%R]) <= pl)%R /\ (0 < pl)%R.
Proof.
  apply (negative_var_means_losses [] [Fin 50%R] 100 (50 / 100 - 1)).
  - lra.
  - cbn [risk_metrics analyze_final_prices VaR_95].
    change [Fin 50%R] with (map Fin [50%R]).
    rewrite returns_of_map_Fin by lra. apply series_quantile_singleton.
  - lra.
Defined.
